(** * Zomboid server helper: voting bot, mod resolver and mod graph

    A shallow embedding of the Telegram voting handlers ([bot.py]), of the
    mod manager ([zomboid_mod_manager.py]), of the dependency graph
    ([_mod_graph.py]) and of the rate limiter ([common_utils.py]), with
    the properties of the design document stated and settled against
    them, and further properties of the same code. *)

From Stdlib Require Import ZArith Ascii.
From stdpp Require Import gmap strings list.

(** ** Python exceptions and results *)

Inductive exn : Type :=
| KeyError
| IndexError
| TypeError
| AttributeError
| RecursionError
| ValueError (msg : string).

Inductive result (A : Type) : Type :=
| Ok (a : A)
| Raise (e : exn).
Arguments Ok {A} a.
Arguments Raise {A} e.

#[global] Instance result_ret : MRet result := λ A a, Ok a.
#[global] Instance result_bind : MBind result := λ A B f r,
  match r with
  | Ok a => f a
  | Raise e => Raise e
  end.

(** [d[k]] on a Python value that may be missing: the exception [e]. *)
Definition expect {A} (e : exn) (o : option A) : result A :=
  match o with
  | Some a => Ok a
  | None => Raise e
  end.

(** ** Stateful code that can raise

    A computation over a state [S]: when an exception is raised the state
    reached so far is kept, as the mutations of a Python object are. *)

Definition stateful (S A : Type) : Type := S → result A * S.

Definition ret {S A} (a : A) : stateful S A := λ s, (Ok a, s).
Definition bind {S A B} (m : stateful S A) (f : A → stateful S B) : stateful S B := λ s,
  match m s with
  | (Ok a, s') => f a s'
  | (Raise e, s') => (Raise e, s')
  end.
Definition raise {S A} (e : exn) : stateful S A := λ s, (Raise e, s).
Definition get {S} : stateful S S := λ s, (Ok s, s).
Definition put {S} (s : S) : stateful S () := λ _, (Ok (), s).
Definition lift {S A} (r : result A) : stateful S A := λ s, (r, s).

Notation "x ←' m ; k" := (bind m (λ x, k))
  (at level 20, m at level 100, k at level 200, only parsing, right associativity).
Notation "m ;;' k" := (bind m (λ _, k))
  (at level 100, k at level 200, only parsing, right associativity).

(** ** The voting handlers of [bot.py] *)

Module Bot.

Open Scope Z_scope.

(** The payload [add_mod] stores in [context.bot_data] under the poll id. *)
Record poll_info : Type := PollInfo {
  questions : list string;
  message_id : Z;
  chat_id : Z;
  answers : Z;
  mod_url : string;
  poll_end_time : Z
}.

(** A job of [context.job_queue]: every job of this program runs
    [stop_poll_by_time]; [job_due] is the absolute time it fires at. *)
Record job : Type := Job {
  job_name : string;
  job_data : string;
  job_chat_id : Z;
  job_due : Z
}.

(** What the handlers ask of the outside world, in order. *)
Inductive action : Type :=
| SendMessage (chat : Z) (text : string)
| SendVoteNotice (chat : Z) (user : Z) (answer_string : string)
| SendPoll (chat : Z) (question : string) (options : list string)
| StopPoll (chat : Z) (message : Z)
| DeleteMessage (chat : Z) (message : Z)
| Sleep (seconds : Z)
| GetRequiredMod (url : string)
| SendModList (chat : Z) (url : string)
| AddToConfig (url : string).

#[global] Instance action_eq_dec : EqDecision action.
Proof. solve_decision. Defined.

(** The module-level [polls] dictionary, [context.bot_data], the job queue
    and the log of the actions performed so far. *)
Record state : Type := State {
  bot_data : gmap string poll_info;
  polls : gmap string (gmap string Z);
  job_queue : list job;
  log : list action
}.

(** The handlers run in [stateful state]. *)
Abbreviation M := (stateful state).

Definition emit (a : action) : M () := λ s,
  (Ok (), State (bot_data s) (polls s) (job_queue s) (log s ++ [a])).
Definition set_bot_data (k : string) (v : poll_info) : M () := λ s,
  (Ok (), State (<[k := v]> (bot_data s)) (polls s) (job_queue s) (log s)).
Definition set_polls (k : string) (v : gmap string Z) : M () := λ s,
  (Ok (), State (bot_data s) (<[k := v]> (polls s)) (job_queue s) (log s)).
Definition set_job_queue (q : list job) : M () := λ s,
  (Ok (), State (bot_data s) (polls s) q (log s)).

Fixpoint emit_all (l : list action) : M () :=
  match l with
  | [] => ret ()
  | a :: l' => emit a ;;' emit_all l'
  end.

(** [context.job_queue.run_once(stop_poll_by_time, delay, data=..., name=...)] *)
Definition run_once (now delay : Z) (data : string) (chat : Z) (name : string) : M () :=
  s ←' get ;
  set_job_queue (job_queue s ++ [Job name data chat (now + delay)]).

(** [for job in context.job_queue.get_jobs_by_name(name): job.schedule_removal()] *)
Definition remove_jobs_by_name (name : string) : M () :=
  s ←' get ;
  set_job_queue (filter (λ j, job_name j ≠ name) (job_queue s)).

(** The branch of both closing paths taken when [n_agree > n_disagree]. *)
Definition install (chat : Z) (url approved_text : string) : M () :=
  emit_all [ SendMessage chat approved_text;
             Sleep 3;
             SendMessage chat "Mod akan diinstall!";
             GetRequiredMod url;
             SendModList chat url;
             AddToConfig url;
             SendMessage chat "Mod berhasil ditambahkan." ].

(** [add_mod], once the argument is known to be a string of digits:
    [valid] and [installed] are the answers of [validate_mod_url] and
    [check_mod_installation], [poll_id] and [msg_id] identify the poll
    message [send_poll] returned. *)
Definition add_mod (now : Z) (chat : Z) (args : string) (valid installed : bool)
    (poll_id : string) (msg_id : Z) : M () :=
  let zomboid_workshop_url :=
    "https://steamcommunity.com/sharedfiles/filedetails/?id=" +:+ args in
  if negb valid then
    emit (SendMessage chat ("Mohon maaf, " +:+ zomboid_workshop_url +:+ " tidak valid."))
  else if installed then
    emit (SendMessage chat
            ("Mohon maaf, " +:+ zomboid_workshop_url +:+ " telah terinstall di dalam server."))
  else
    emit (SendMessage chat
            ("Silahkan vote apakah MOD " +:+ zomboid_workshop_url +:+ " layak masuk server")) ;;'
    let questions := ["Setuju"; "Tidak Setuju"] in
    emit (SendPoll chat "Gimana?" questions) ;;'
    set_polls poll_id (foldl (λ d option, <[option := 0]> d) ∅ questions) ;;'
    set_bot_data poll_id (PollInfo questions msg_id chat 0 zomboid_workshop_url (now + 3600)) ;;'
    run_once now 3600 poll_id chat "poll_stopper".

(** [stop_poll_by_time], the callback of the [poll_stopper] jobs; [data]
    is [context.job.data]. *)
Definition stop_poll_by_time (now : Z) (data : string) : M () :=
  s ←' get ;
  match bot_data s !! data with
  | None => ret ()
  | Some answer_id =>
      if decide (now >= poll_end_time answer_id) then
        emit (StopPoll (chat_id answer_id) (message_id answer_id)) ;;'
        emit (DeleteMessage (chat_id answer_id) (message_id answer_id)) ;;'
        tally ←' lift (expect KeyError (polls s !! data)) ;
        n_agree ←' lift (expect KeyError (tally !! "Setuju")) ;
        n_disagree ←' lift (expect KeyError (tally !! "Tidak Setuju")) ;
        if decide (n_agree > n_disagree) then
          install (chat_id answer_id) (mod_url answer_id)
            "Voting berakhir dan mayoritas menyetujui Mod tersebut!"
        else ret ()
      else ret ()
  end.

(** The loop of [receive_poll_answer] that joins the chosen labels. *)
Fixpoint answer_string_loop (questions : list string) (last : nat)
    (selected : list nat) (answer_string : string) : result string :=
  match selected with
  | [] => Ok answer_string
  | question_id :: rest =>
      q ← expect IndexError (questions !! question_id) ;
      answer_string_loop questions last rest
        (if decide (question_id ≠ last) then answer_string +:+ q +:+ " dan "
         else answer_string +:+ q)
  end.

(** A [PollAnswer] update: poll, voter and chosen option indices. *)
Record poll_answer : Type := PollAnswer {
  poll_id : string;
  user : Z;
  option_ids : list nat
}.

Section Handlers.

(** [MINIMUM_AGREE_MEMBERS_FOR_MOD], read from [config.yaml]. *)
Variable MINIMUM_AGREE_MEMBERS_FOR_MOD : Z.

(** [receive_poll_answer]. The payloads of [bot_data] always hold their
    ["questions"], so the handler's [except KeyError] is never entered. *)
Definition receive_poll_answer (now : Z) (answer : poll_answer) : M () :=
  s ←' get ;
  answered_poll ←' lift (expect KeyError (bot_data s !! poll_id answer)) ;
  let selected_options := option_ids answer in
  answer_string ←' lift (answer_string_loop (questions answered_poll)
                            (List.last selected_options 0%nat) selected_options "") ;
  tally ←' lift (expect KeyError (polls s !! poll_id answer)) ;
  count ←' lift (expect KeyError (tally !! answer_string)) ;
  set_polls (poll_id answer) (<[answer_string := count + 1]> tally) ;;'
  emit (SendVoteNotice (chat_id answered_poll) (user answer) answer_string) ;;'
  let answered_poll := PollInfo (questions answered_poll) (message_id answered_poll)
                         (chat_id answered_poll) (answers answered_poll + 1)
                         (mod_url answered_poll) (poll_end_time answered_poll) in
  set_bot_data (poll_id answer) answered_poll ;;'
  if decide (answers answered_poll = MINIMUM_AGREE_MEMBERS_FOR_MOD) then
    emit (SendMessage (chat_id answered_poll)
            "Setengah dari anggota grub telah voting, polling akan ditutup 30 menit lagi!") ;;'
    remove_jobs_by_name "poll_stopper" ;;'
    set_bot_data (poll_id answer)
      (PollInfo (questions answered_poll) (message_id answered_poll)
         (chat_id answered_poll) (answers answered_poll)
         (mod_url answered_poll) (now + 1800)) ;;'
    run_once now 1800 (poll_id answer) (chat_id answered_poll) "poll_stopper"
  else if decide (answers answered_poll = 5) then
    emit (StopPoll (chat_id answered_poll) (message_id answered_poll)) ;;'
    emit (DeleteMessage (chat_id answered_poll) (message_id answered_poll)) ;;'
    remove_jobs_by_name "poll_stopper" ;;'
    s' ←' get ;
    tally' ←' lift (expect KeyError (polls s' !! poll_id answer)) ;
    n_agree ←' lift (expect KeyError (tally' !! "Setuju")) ;
    n_disagree ←' lift (expect KeyError (tally' !! "Tidak Setuju")) ;
    if decide (n_agree > n_disagree) then
      install (chat_id answered_poll) (mod_url answered_poll)
        "Voting berakhir dan mayoritas menyetujui mod tersebut!"
    else
      emit (SendMessage (chat_id answered_poll)
              "Voting berakhir dan mayoritas tidak menyetujui mod tersebut!")
  else ret ().

(** The two ways a handler of the bot is entered once a poll is open: a
    vote, or a job of the queue that fires and runs its callback on its
    [data]. *)
Inductive event : Type :=
| Vote (answer : poll_answer)
| JobFired (data : string).

Definition event_poll (ev : event) : string :=
  match ev with
  | Vote answer => poll_id answer
  | JobFired data => data
  end.

Definition handle (now : Z) (ev : event) : M () :=
  match ev with
  | Vote answer => receive_poll_answer now answer
  | JobFired data => stop_poll_by_time now data
  end.

End Handlers.

(** The actions a run from [s] to [s'] added to the log. *)
Definition emitted (s s' : state) : list action :=
  drop (length (log s)) (log s').

(** A run closes the poll when it stops it. *)
Definition closes (acts : list action) : bool :=
  existsb (λ a, match a with StopPoll _ _ => true | _ => false end) acts.

(** A run triggers the resolution or the installation of the mod. *)
Definition triggers_install (acts : list action) : bool :=
  existsb (λ a, match a with
                | GetRequiredMod _ | AddToConfig _ => true
                | _ => false
                end) acts.

(** The count [polls[poll][label]], 0 when there is none. *)
Definition tally_of (s : state) (poll label : string) : Z :=
  default 0 (polls s !! poll ≫= (.!! label)).

End Bot.

(** ** Python dictionaries with string keys

    A [dict] keeps its keys in insertion order, and assigning to a key that
    is present replaces the value where it stands. *)

Section Dict.

Context {V : Type}.

Fixpoint dict_get (d : list (string * V)) (k : string) : option V :=
  match d with
  | [] => None
  | (k', v) :: d' => if decide (k' = k) then Some v else dict_get d' k
  end.

Fixpoint dict_set (d : list (string * V)) (k : string) (v : V) : list (string * V) :=
  match d with
  | [] => [(k, v)]
  | (k', v') :: d' =>
      if decide (k' = k) then (k, v) :: d' else (k', v') :: dict_set d' k v
  end.

Definition dict_keys (d : list (string * V)) : list string := d.*1.

Definition dict_values (d : list (string * V)) : list V := d.*2.

End Dict.

(** A loop whose body can raise. *)
Fixpoint for_each {S A : Type} (body : S → A → result S) (s : S) (l : list A) : result S :=
  match l with
  | [] => Ok s
  | a :: l' => s' ← body s a ; for_each body s' l'
  end.

(** One entry of a [ModMetadata] mapping: a Python dictionary whose keys
    may be missing ([required] is only set once a dependency is found). *)
Record metadata : Type := Metadata {
  url : option string;
  mod_name : option string;
  workshop_id : option string;
  mod_id : option (list string);
  required : option (list string)
}.

#[global] Instance metadata_eq_dec : EqDecision metadata.
Proof. solve_decision. Defined.

(** [entry.setdefault("required", []).append(dep)] *)
Definition append_required (entry : metadata) (dep : string) : metadata :=
  Metadata (url entry) (mod_name entry) (workshop_id entry) (mod_id entry)
    (Some (default [] (required entry) ++ [dep])).

(** ** The dependency graph of [_mod_graph.py] *)

Module ModGraph.

(** A vertex of the [igraph] graph with its attributes; an attribute that
    was never assigned reads [None]. *)
Record vertex : Type := Vertex {
  name : string;
  v_mod_name : option string;
  v_url : option string;
  v_mod_id : option (list string)
}.

#[global] Instance vertex_eq_dec : EqDecision vertex.
Proof. solve_decision. Defined.

(** A directed [igraph] graph: the vertices in index order and the edges,
    as pairs of vertex indices, in the order they were added. *)
Record igraph : Type := Graph {
  vs : list vertex;
  es : list (nat * nat)
}.

(** [graph.vs.find(name=n).index]: the first vertex of that name. *)
Fixpoint find_name (n : string) (l : list vertex) : option nat :=
  match l with
  | [] => None
  | v :: l' => if decide (name v = n) then Some 0%nat else S <$> find_name n l'
  end.

Definition find (n : string) (g : igraph) : result nat :=
  expect (ValueError "no such vertex") (find_name n (vs g)).

(** [graph.add_vertex(name=..., mod_name=..., url=..., mod_id=...)] *)
Definition add_vertex (g : igraph) (v : vertex) : igraph :=
  Graph (vs g ++ [v]) (es g).

(** [graph.add_vertices(names)] *)
Definition add_vertices (g : igraph) (names : list string) : igraph :=
  Graph (vs g ++ ((λ n, Vertex n None None None) <$> names)) (es g).

Definition are_connected (g : igraph) (source target : nat) : bool :=
  bool_decide ((source, target) ∈ es g).

Definition add_edge (g : igraph) (source target : nat) : igraph :=
  Graph (vs g) (es g ++ [(source, target)]).

(** [graph.predecessors(i)], in edge order. *)
Definition predecessors (g : igraph) (i : nat) : list nat :=
  (filter (λ e, e.2 = i) (es g)).*1.

(** The three attribute assignments [v["mod_name"] = data.get("mod_name", "")],
    [v["url"] = ...], [v["mod_id"] = ...]. *)
Definition set_attributes (data : metadata) (v : vertex) : vertex :=
  Vertex (name v) (Some (default "" (mod_name data))) (Some (default "" (url data)))
    (Some (default [] (mod_id data))).

(** The object: the graph and the [mod_data] dictionary. *)
Record ZomboidModGraph : Type := ModGraph {
  graph : igraph;
  mod_data : list (string * metadata)
}.

(** [ZomboidModGraph()] *)
Definition empty : ZomboidModGraph := ModGraph (Graph [] []) [].

(** [_build_graph] *)
Definition _build_graph (self : ZomboidModGraph) : result ZomboidModGraph :=
  let vertices := dict_keys (mod_data self) in
  let g := add_vertices (graph self) vertices in
  g ← for_each (λ g vid,
         info ← expect KeyError (dict_get (mod_data self) vid) ;
         i ← find vid g ;
         Ok (Graph (alter (λ v, set_attributes info
                                  (Vertex vid (v_mod_name v) (v_url v) (v_mod_id v)))
                      i (vs g)) (es g)))
       g vertices ;
  let edges :=
    mjoin ((λ '(mod_id, info),
             (λ req, (mod_id, req)) <$>
               filter (λ req, req ∈ dict_keys (mod_data self)) (default [] (required info)))
           <$> mod_data self) in
  new_edges ← mapM (λ '(s, t), i ← find s g ; j ← find t g ; Ok (i, j)) edges ;
  Ok (ModGraph (Graph (vs g) (es g ++ new_edges)) (mod_data self)).

(** ASCII lower-casing, standing for [str.lower]. *)
Definition lower_ascii (c : Ascii.ascii) : Ascii.ascii :=
  let n := Ascii.N_of_ascii c in
  if ((65 <=? n)%N && (n <=? 90)%N)%bool then Ascii.ascii_of_N (n + 32) else c.

Fixpoint lower (s : string) : string :=
  match s with
  | EmptyString => EmptyString
  | String c s' => String (lower_ascii c) (lower s')
  end.

(** The lookup shared by [get_dependencies] and [get_dependents]: by
    workshop id first, then by case-insensitive mod name. A graph that
    never received a vertex has no [name] attribute to read. *)
Definition match_identifier (self : ZomboidModGraph) (identifier : string) : result nat :=
  let g := graph self in
  if decide (vs g = []) then Raise KeyError
  else if decide (identifier ∈ name <$> vs g) then find identifier g
  else
    flags ← mapM (λ v, n ← expect AttributeError (v_mod_name v) ;
                       Ok (bool_decide (lower n = lower identifier))) (vs g) ;
    match (filter (λ p, p.2 = true) (imap (λ i b, (i, b)) flags)).*1 with
    | [i] => Ok i
    | [] => Raise (ValueError "No mod found with name or ID")
    | _ => Raise (ValueError "Ambiguous mod name; multiple mods matched.")
    end.

(** [get_dependents] *)
Definition get_dependents (self : ZomboidModGraph) (identifier : string)
    : result (list string) :=
  matched ← match_identifier self identifier ;
  mapM (λ idx, expect IndexError (name <$> vs (graph self) !! idx))
    (predecessors (graph self) matched).

(** The body of the inner loop of [update_by_metadata], for one required id. *)
Definition merge_required (workshop_id : string) (st : igraph * gset string)
    (dep_id : string) : result (igraph * gset string) :=
  let '(g, existing_nodes) := st in
  let '(g, existing_nodes) :=
    if decide (dep_id ∉ existing_nodes) then
      (add_vertex g (Vertex dep_id (Some "") (Some "") (Some [])), {[dep_id]} ∪ existing_nodes)
    else (g, existing_nodes) in
  source_idx ← find workshop_id g ;
  target_idx ← find dep_id g ;
  if are_connected g source_idx target_idx then Ok (g, existing_nodes)
  else Ok (add_edge g source_idx target_idx, existing_nodes).

(** The body of the outer loop of [update_by_metadata], for one item. *)
Definition merge_item (st : igraph * list (string * metadata) * gset string)
    (item : string * metadata) : result (igraph * list (string * metadata) * gset string) :=
  let '(g, mod_data, existing_nodes) := st in
  let '(workshop_id, data) := item in
  let mod_data := dict_set mod_data workshop_id data in
  st ← (if decide (workshop_id ∉ existing_nodes) then
          Ok (add_vertex g (set_attributes data (Vertex workshop_id None None None)),
              {[workshop_id]} ∪ existing_nodes)
        else
          i ← find workshop_id g ;
          Ok (Graph (alter (set_attributes data) i (vs g)) (es g), existing_nodes)) ;
  st ← for_each (merge_required workshop_id) st (default [] (required data)) ;
  Ok (st.1, mod_data, st.2).

(** [update_by_metadata] *)
Definition update_by_metadata (self : ZomboidModGraph)
    (new_mod_data : list (string * metadata)) : result ZomboidModGraph :=
  let existing_nodes : gset string :=
    if decide (0 < length (vs (graph self))) then list_to_set (name <$> vs (graph self))
    else ∅ in
  st ← for_each merge_item (graph self, mod_data self, existing_nodes) new_mod_data ;
  Ok (ModGraph st.1.1 st.1.2).

(** [save(meta_path=...)]: [file] is the content of the JSON document at
    [meta_path], [None] when there is no such file. The document is only
    written when [mod_data] is not empty. *)
Definition save (self : ZomboidModGraph) (file : option (list (string * metadata)))
    : option (list (string * metadata)) :=
  match mod_data self with
  | [] => file
  | _ => Some (mod_data self)
  end.

(** [load(meta_path=...)] *)
Definition load (file : option (list (string * metadata))) : result ZomboidModGraph :=
  match file with
  | Some document => _build_graph (ModGraph (graph empty) document)
  | None => Ok empty
  end.

(** [graph.successors(i)], in edge order. *)
Definition successors (g : igraph) (i : nat) : list nat :=
  (filter (λ e, e.1 = i) (es g)).*2.

(** [get_dependencies] *)
Definition get_dependencies (self : ZomboidModGraph) (identifier : string)
    : result (list string) :=
  matched ← match_identifier self identifier ;
  mapM (λ idx, expect IndexError (name <$> vs (graph self) !! idx))
    (successors (graph self) matched).

(** The node set and the edge set of a graph, by workshop id. *)
Definition node_names (g : igraph) : list string := name <$> vs g.

Definition edge_names (g : igraph) : list (option string * option string) :=
  (λ e, (name <$> vs g !! e.1, name <$> vs g !! e.2)) <$> es g.

End ModGraph.

(** ** The mod manager of [zomboid_mod_manager.py] *)

Module ModManager.

Import ModGraph.

(** What the manager reads off a fetched Workshop page: the text of the
    [workshopItemTitle] element, stripped; the result of
    [get_mod_id_from_html] on the [highlightContent] element; the [href]
    of every anchor of the [RequiredItems] container. Each is [None] when
    the page has no such element. *)
Record page : Type := Page {
  page_title : option string;
  page_mod_ids : option (list string);
  page_required : option (list (option string))
}.

(** [requests.get(url, timeout=...)] either raises [requests.Timeout] or
    returns a page. *)
Inductive response : Type :=
| Timeout
| Fetched (p : page).

Definition is_digit (c : Ascii.ascii) : bool :=
  let n := Ascii.N_of_ascii c in ((48 <=? n)%N && (n <=? 57)%N)%bool.

Fixpoint take_digits (s : string) : string :=
  match s with
  | String c s' => if is_digit c then String c (take_digits s') else EmptyString
  | EmptyString => EmptyString
  end.

(** [get_workshop_id]: the first match of [id=(\d+)] in the URL, or [""]. *)
Fixpoint get_workshop_id (url : string) : string :=
  match url with
  | EmptyString => EmptyString
  | String c rest =>
      match url with
      | String "i"%char (String "d"%char (String "="%char tail)) =>
          match take_digits tail with
          | EmptyString => get_workshop_id rest
          | digits => digits
          end
      | _ => get_workshop_id rest
      end
  end.

(** [get_url_from_mod_id], with [ZOMBOID_WORKSHOP_URL_PREFIX] of
    [constant.py]. *)
Definition get_url_from_mod_id (mod_id : string) : string :=
  "https://steamcommunity.com/sharedfiles/filedetails/?id=" +:+ mod_id.

(** [s.split(sep)] for a separator of one character. *)
Fixpoint split (sep : Ascii.ascii) (s : string) : list string :=
  match s with
  | EmptyString => [EmptyString]
  | String c s' =>
      if decide (c = sep) then EmptyString :: split sep s'
      else match split sep s' with
           | w :: ws => String c w :: ws
           | [] => [String c EmptyString]
           end
  end.

(** The loop of [add_to_config] over [mod_metadata.values()]. *)
Definition add_to_config_step (lists : list string * list string) (metadata : metadata)
    : result (list string * list string) :=
  let '(workshop_ids, mod_ids) := lists in
  wid ← expect KeyError (workshop_id metadata) ;
  if decide (wid ∉ workshop_ids) then
    ids ← expect KeyError (mod_id metadata) ;
    Ok (wid :: workshop_ids, ids ++ mod_ids)
  else Ok (workshop_ids, mod_ids).

Definition add_to_config_loop (values : list metadata) (workshop_ids mod_ids : list string)
    : result (list string * list string) :=
  for_each add_to_config_step (workshop_ids, mod_ids) values.

Section Manager.

(** The Workshop: the answer to the [n]-th request for a URL. *)
Variable catalog : string → nat → response.

(** [ZomboidConfig], through the two methods the manager calls. *)
Context {Config : Type}.
Variable get_main_config_value : Config → string → option string.
Variable change_main_config : Config → string → string → Config.

(** The manager object, the number of requests sent so far for each URL
    and the JSON document at [meta_path]. *)
Record manager : Type := Manager {
  timed_out_url : list string;
  requests_sent : gmap string nat;
  zomboid_config : Config;
  _mod_graph : ZomboidModGraph;
  meta_file : option (list (string * metadata))
}.

Definition requests_get (mod_url : string) : stateful manager response := λ m,
  let n := default 0%nat (requests_sent m !! mod_url) in
  (Ok (catalog mod_url n),
   Manager (timed_out_url m) (<[mod_url := S n]> (requests_sent m)) (zomboid_config m)
     (_mod_graph m) (meta_file m)).

Definition set_timed_out_url (l : list string) : stateful manager () := λ m,
  (Ok (), Manager l (requests_sent m) (zomboid_config m) (_mod_graph m) (meta_file m)).

(** The loop of [_request_required_mod] over the anchors of the
    [RequiredItems] container; [rec] is the recursive call. After a child
    timed out [mod_metadata] is [None], and the next membership test
    raises [TypeError]. *)
Fixpoint request_children
    (rec : string → option (list (string * metadata)) → option string →
           stateful manager (option (list (string * metadata))))
    (workshop_id : string) (anchors : list (option string))
    (mod_metadata : option (list (string * metadata)))
    : stateful manager (option (list (string * metadata))) :=
  match anchors with
  | [] => ret mod_metadata
  | None :: rest | Some EmptyString :: rest =>
      request_children rec workshop_id rest mod_metadata
  | Some href :: rest =>
      match mod_metadata with
      | None => raise TypeError
      | Some d =>
          if decide (href ∉ dict_keys d) then
            mod_metadata ←' rec href (Some d) (Some workshop_id) ;
            request_children rec workshop_id rest mod_metadata
          else request_children rec workshop_id rest mod_metadata
      end
  end.

(** [_request_required_mod]; [depth] is the number of nested calls the
    interpreter still allows. The result is [None] after a timeout. *)
Fixpoint _request_required_mod (depth : nat) (mod_url : string)
    (mod_metadata : option (list (string * metadata))) (child_workshop_id : option string)
    : stateful manager (option (list (string * metadata))) :=
  match depth with
  | O => raise RecursionError
  | S depth' =>
      let mod_metadata := default [] mod_metadata in
      response ←' requests_get mod_url ;
      match response with
      | Timeout =>
          m ←' get ;
          (if decide (mod_url ∉ timed_out_url m)
           then set_timed_out_url (timed_out_url m ++ [mod_url])
           else ret ()) ;;'
          ret None
      | Fetched soup =>
          title ←' lift (expect AttributeError (page_title soup)) ;
          mod_ids ←' lift (expect AttributeError (page_mod_ids soup)) ;
          let workshop_id := get_workshop_id mod_url in
          let mod_metadata :=
            dict_set mod_metadata workshop_id
              (Metadata (Some mod_url) (Some title) (Some workshop_id) (Some mod_ids) None) in
          mod_metadata ←'
            match child_workshop_id with
            | None | Some EmptyString => ret mod_metadata
            | Some child =>
                entry ←' lift (expect KeyError (dict_get mod_metadata child)) ;
                ret (dict_set mod_metadata child (append_required entry workshop_id))
            end ;
          match page_required soup with
          | Some anchors =>
              request_children (_request_required_mod depth') workshop_id anchors
                (Some mod_metadata)
          | None => ret (Some mod_metadata)
          end
      end
  end.

(** [if mod_metadata:] *)
Definition truthy (mod_metadata : option (list (string * metadata))) : bool :=
  match mod_metadata with
  | Some (_ :: _) => true
  | _ => false
  end.

(** The inner loop of [get_required_mod] over [retry_urls]. *)
Fixpoint retry_urls_loop (depth : nat) (retry_urls : list string)
    (mod_metadata : option (list (string * metadata)))
    : stateful manager (option (list (string * metadata))) :=
  match retry_urls with
  | [] => ret mod_metadata
  | url :: rest =>
      mod_metadata ←' _request_required_mod depth url None None ;
      if truthy mod_metadata then ret mod_metadata
      else retry_urls_loop depth rest mod_metadata
  end.

(** The outer loop of [get_required_mod], [for _ in range(n_retry)]. *)
Fixpoint retry_rounds (depth n_retry : nat)
    (mod_metadata : option (list (string * metadata)))
    : stateful manager (option (list (string * metadata))) :=
  match n_retry with
  | O => ret mod_metadata
  | S n =>
      m ←' get ;
      match timed_out_url m with
      | [] => ret mod_metadata
      | retry_urls =>
          set_timed_out_url [] ;;'
          mod_metadata ←' retry_urls_loop depth retry_urls mod_metadata ;
          retry_rounds depth n mod_metadata
      end
  end.

(** [get_required_mod] *)
Definition get_required_mod (depth : nat) (mod_url : string) (n_retry : nat)
    : stateful manager (option (list (string * metadata))) :=
  mod_metadata ←' _request_required_mod depth mod_url None None ;
  retry_rounds depth n_retry mod_metadata.

(** [check_mod_installation] *)
Definition check_mod_installation (workshop_id : string) : stateful manager bool :=
  m ←' get ;
  installed_workshop_ids ←'
    lift (expect AttributeError
            (get_main_config_value (zomboid_config m) "WorkshopItems")) ;
  ret (bool_decide (workshop_id ∈ split ";"%char installed_workshop_ids)).

(** [add_to_config] *)
Definition add_to_config (mod_metadata : list (string * metadata)) : stateful manager () :=
  m ←' get ;
  workshop_ids ←' lift (expect AttributeError
                          (get_main_config_value (zomboid_config m) "WorkshopItems")) ;
  mod_ids ←' lift (expect AttributeError (get_main_config_value (zomboid_config m) "Mods")) ;
  lists ←' lift (add_to_config_loop (dict_values mod_metadata)
                   (split ";"%char workshop_ids) (split ";"%char mod_ids)) ;
  let config := change_main_config (zomboid_config m) "WorkshopItems"
                  (String.concat ";" lists.1) in
  let config := change_main_config config "Mods" (String.concat ";" lists.2) in
  put (Manager (timed_out_url m) (requests_sent m) config (_mod_graph m) (meta_file m)) ;;'
  g ←' lift (update_by_metadata (_mod_graph m) mod_metadata) ;
  put (Manager (timed_out_url m) (requests_sent m) config g (save g (meta_file m))).

(** [get_mod_dependents] *)
Definition get_mod_dependents (identifier : string) : stateful manager (list string) :=
  m ←' get ;
  lift (get_dependents (_mod_graph m) identifier).

(** [delete_mod] *)
Definition delete_mod (identifier : string) (force : bool) : stateful manager bool :=
  dependents ←' get_mod_dependents identifier ;
  match dependents with
  | _ :: _ =>
      if negb force then raise (ValueError "Can't be deleted because has dependents:")
      else ret true
  | [] => ret true
  end.

End Manager.

End ModManager.

(** ** The rate limiter of [common_utils.py] *)

Module RateLimit.

Open Scope Z_scope.

(** [rate_limit_data], the dictionary shared by the calls of one decorated
    handler: the record of each user id ([count], [timestamp]) and the
    record kept under the key ["independent_call"] ([count], [timestamp],
    [from_user]). Times are in whole seconds. *)
Record limiter : Type := Limiter {
  users : gmap Z (Z * Z);
  independent_call : option (Z * Z * string)
}.

(** How a call to the wrapped handler ends: the handler ran, or one of the
    two refusal messages was sent, with the caller named and the seconds
    left. *)
Inductive outcome : Type :=
| Executed
| RefusedIndependent (caller : string) (remaining_time : Z)
| RefusedUser (remaining_time : Z).

(** The handler ran. *)
Definition ran (r : result outcome) : bool :=
  match r with
  | Ok Executed => true
  | _ => false
  end.

Section Wrapper.

Variable rate_limit_duration : Z.
Variable max_calls : Z.
Variable independent_call_limit : option Z.

(** The first test of [wrapper], on the shared record: [Some] outcome
    when the call returns there. Without [independent_call_limit] the
    comparison [count >= None] raises [TypeError]. *)
Definition check_independent (now : Z) (username : string)
    : stateful limiter (option outcome) := λ data,
  match independent_call data with
  | Some (count, timestamp, from_user) =>
      if decide (now - timestamp > rate_limit_duration) then
        (Ok None, Limiter (users data) (Some (0, now, username)))
      else
        match independent_call_limit with
        | None => (Raise TypeError, data)
        | Some limit =>
            if decide (count >= limit) then
              (Ok (Some (RefusedIndependent from_user
                           (rate_limit_duration - (now - timestamp)))), data)
            else (Ok None, data)
        end
  | None => (Ok None, data)
  end.

(** The second test, on the record of the user. *)
Definition check_user (now : Z) (user_id : Z) : stateful limiter (option outcome) :=
  λ data,
  match users data !! user_id with
  | Some (count, timestamp) =>
      if decide (now - timestamp > rate_limit_duration) then
        (Ok None, Limiter (<[user_id := (0, now)]> (users data)) (independent_call data))
      else if decide (count >= max_calls) then
        (Ok (Some (RefusedUser (rate_limit_duration - (now - timestamp)))), data)
      else (Ok None, data)
  | None => (Ok None, data)
  end.

(** The update of the records after the handler ran. *)
Definition record_call (now : Z) (user_id : Z) (username : string) : stateful limiter () :=
  λ data,
  let users' :=
    match users data !! user_id with
    | Some (count, timestamp) => <[user_id := (count + 1, timestamp)]> (users data)
    | None => <[user_id := (1, now)]> (users data)
    end in
  let independent' :=
    match independent_call_limit with
    | None => independent_call data
    | Some _ =>
        match independent_call data with
        | Some (count, timestamp, from_user) => Some (count + 1, timestamp, from_user)
        | None => Some (1, now, username)
        end
    end in
  (Ok (), Limiter users' independent').

(** [wrapper], for a call by the user [user_id] named [username]. The
    clock reads [now] throughout the call, and the wrapped handler, which
    runs between the two tests and the update of the records, returns. *)
Definition wrapper (now : Z) (user_id : Z) (username : string) : stateful limiter outcome :=
  refused ←' check_independent now username ;
  match refused with
  | Some o => ret o
  | None =>
      refused ←' check_user now user_id ;
      match refused with
      | Some o => ret o
      | None => record_call now user_id username ;;' ret Executed
      end
  end.

(** A call: its time, the user id and the user name. *)
Record call : Type := Call { at_time : Z; by_user : Z; by_name : string }.

(** The number of calls of [user_id] that ran the handler, in a series of
    calls. *)
Fixpoint executions (user_id : Z) (calls : list call) (data : limiter) : nat :=
  match calls with
  | [] => 0
  | c :: calls' =>
      let '(r, data') := wrapper (at_time c) (by_user c) (by_name c) data in
      ((if ran r && bool_decide (by_user c = user_id) then 1 else 0)
       + executions user_id calls' data')%nat
  end.

(** The number of calls that ran the handler, all users together. *)
Fixpoint all_executions (calls : list call) (data : limiter) : nat :=
  match calls with
  | [] => 0
  | c :: calls' =>
      let '(r, data') := wrapper (at_time c) (by_user c) (by_name c) data in
      ((if ran r then 1 else 0) + all_executions calls' data')%nat
  end.

End Wrapper.

End RateLimit.

(** * Properties of the voting handlers *)

Module BotFacts.

Import Bot.
Open Scope Z_scope.

(** The payload of a poll once one more answer was counted, and once the
    quorum branch also moved its deadline. *)
Definition counted (info : poll_info) : poll_info :=
  PollInfo (questions info) (message_id info) (chat_id info) (answers info + 1)
    (mod_url info) (poll_end_time info).

Definition shortened (now : Z) (info : poll_info) : poll_info :=
  PollInfo (questions info) (message_id info) (chat_id info) (answers info + 1)
    (mod_url info) (now + 1800).

Definition not_stopper (j : job) : Prop := job_name j ≠ "poll_stopper".

(** A poll ["p"] for mod 123 opened at time 0 in chat 10, and the same
    with a second poll ["q"] opened at time 100. *)
Definition demo_open : state :=
  (add_mod 0 10 "123" true false "p" 77 (State ∅ ∅ [] [])).2.

Definition two_polls : state :=
  (add_mod 100 10 "456" true false "q" 78 demo_open).2.

Definition demo_info (n : Z) : poll_info :=
  PollInfo ["Setuju"; "Tidak Setuju"] 77 10 n
    "https://steamcommunity.com/sharedfiles/filedetails/?id=123" 3600.

Definition agree (u : Z) : poll_answer := PollAnswer "p" u [0%nat].
Definition disagree (u : Z) : poll_answer := PollAnswer "p" u [1%nat].

Fixpoint run_votes (Q : Z) (evs : list (Z * poll_answer)) (s : state) : state :=
  match evs with
  | [] => s
  | (now, a) :: evs' => run_votes Q evs' (receive_poll_answer Q now a s).2
  end.

Definition four_votes : list (Z * poll_answer) :=
  [(10, agree 1); (20, agree 2); (30, disagree 3); (40, agree 4)].

(** The design document's reading of the vote rules, to compare the
    handlers with. *)
Definition spec_vote_dedup : Prop :=
  ∀ (Q now1 now2 : Z) (a1 a2 : poll_answer) (s s1 s2 : state),
    receive_poll_answer Q now1 a1 s = (Ok (), s1) →
    receive_poll_answer Q now2 a2 s1 = (Ok (), s2) →
    poll_id a1 = poll_id a2 → user a1 = user a2 →
    polls s2 = polls s1.

Definition spec_quorum_shortens : Prop :=
  ∀ (Q now : Z) (ans : poll_answer) (s s' : state) (info info' : poll_info),
    bot_data s !! poll_id ans = Some info →
    now < poll_end_time info →
    answers info + 1 = Q →
    receive_poll_answer Q now ans s = (Ok (), s') →
    bot_data s' !! poll_id ans = Some info' →
    poll_end_time info' < poll_end_time info.

Definition spec_cap_closes : Prop :=
  ∀ (Q now : Z) (ans : poll_answer) (s s' : state) (info : poll_info),
    bot_data s !! poll_id ans = Some info →
    answers info + 1 = 5 →
    receive_poll_answer Q now ans s = (Ok (), s') →
    closes (emitted s s') = true.

Lemma emitted_app s bd pl jq l :
  emitted s (State bd pl jq (log s ++ l)) = l.
Proof. unfold emitted. simpl. by rewrite drop_app_length. Qed.

Lemma emitted_nil s : emitted s s = [].
Proof. unfold emitted. by rewrite drop_all. Qed.

Ltac step_monad :=
  unfold receive_poll_answer, stop_poll_by_time, install, remove_jobs_by_name,
    run_once, emit_all, bind, get, lift, ret, raise, emit, set_polls, set_bot_data,
    set_job_queue in *; simpl in *.

(** What a vote that the handler accepts did to the state. *)
Lemma receive_poll_answer_inv (Q now : Z) (ans : poll_answer) (s s' : state) :
  receive_poll_answer Q now ans s = (Ok (), s') →
  ∃ info a t c,
    bot_data s !! poll_id ans = Some info
    ∧ answer_string_loop (questions info) (List.last (option_ids ans) 0%nat)
        (option_ids ans) "" = Ok a
    ∧ polls s !! poll_id ans = Some t
    ∧ t !! a = Some c
    ∧ polls s' = <[poll_id ans := <[a := c + 1]> t]> (polls s)
    ∧ if decide (answers info + 1 = Q) then
        bot_data s' = <[poll_id ans := shortened now info]> (bot_data s)
        ∧ job_queue s' = filter not_stopper (job_queue s)
                           ++ [Job "poll_stopper" (poll_id ans) (chat_id info) (now + 1800)]
        ∧ closes (emitted s s') = false
      else if decide (answers info + 1 = 5) then
        bot_data s' = <[poll_id ans := counted info]> (bot_data s)
        ∧ job_queue s' = filter not_stopper (job_queue s)
        ∧ closes (emitted s s') = true
      else
        bot_data s' = <[poll_id ans := counted info]> (bot_data s)
        ∧ job_queue s' = job_queue s
        ∧ closes (emitted s s') = false.
Proof.
  destruct ans as [p u opts]. step_monad.
  destruct (bot_data s !! p) as [info|] eqn:Hinfo; simpl; [|done].
  destruct (answer_string_loop _ _ _ _) as [a|] eqn:Ha; simpl; [|done].
  destruct (polls s !! p) as [t|] eqn:Ht; simpl; [|done].
  destruct (t !! a) as [c|] eqn:Hc; simpl; [|done].
  intros H. exists info, a, t, c. repeat (split; [done|]).
  destruct (decide (answers info + 1 = Q)) as [HQ|HQ]; simpl in H.
  { injection H as <-. simpl. rewrite insert_insert_eq, <- !app_assoc, emitted_app. done. }
  destruct (decide (answers info + 1 = 5)) as [H5|H5]; simpl in H.
  2:{ injection H as <-. simpl. rewrite emitted_app. done. }
  rewrite lookup_insert_eq in H. simpl in H.
  destruct (<[a:=c + 1]> t !! "Setuju") as [na|]; simpl in H; [|done].
  destruct (<[a:=c + 1]> t !! "Tidak Setuju") as [nd|]; simpl in H; [|done].
  case_decide; simpl in H; injection H as <-; simpl;
    rewrite <- !app_assoc, emitted_app; done.
Qed.

(** Both closing paths decide by the same comparison of the two tallies. *)
Lemma close_decides_by_majority (Q now : Z) (ev : event) (s s' : state) :
  handle Q now ev s = (Ok (), s') →
  closes (emitted s s') = true →
  triggers_install (emitted s s') = true
  ↔ tally_of s' (event_poll ev) "Setuju" > tally_of s' (event_poll ev) "Tidak Setuju".
Proof.
  destruct ev as [[p u opts] | data]; simpl.
  - step_monad.
    destruct (bot_data s !! p) as [info|] eqn:Hinfo; simpl; [|done].
    destruct (answer_string_loop _ _ _ _) as [a|] eqn:Ha; simpl; [|done].
    destruct (polls s !! p) as [t|] eqn:Ht; simpl; [|done].
    destruct (t !! a) as [c|] eqn:Hc; simpl; [|done].
    case_decide; simpl.
    { intros [= <-]. rewrite <- !app_assoc, emitted_app. done. }
    case_decide; simpl; [|intros [= <-]; rewrite emitted_app; done].
    rewrite lookup_insert_eq. simpl.
    destruct (<[a:=c + 1]> t !! "Setuju") as [na|] eqn:Hna; simpl; [|done].
    destruct (<[a:=c + 1]> t !! "Tidak Setuju") as [nd|] eqn:Hnd; simpl; [|done].
    case_decide; simpl; intros [= <-] _; rewrite <- !app_assoc, emitted_app;
      unfold tally_of; simpl; rewrite lookup_insert_eq; simpl; rewrite Hna, Hnd; simpl.
    + done.
    + split; [done|lia].
  - step_monad.
    destruct (bot_data s !! data) as [info|] eqn:Hinfo; simpl.
    2:{ intros [= <-]. by rewrite emitted_nil. }
    case_decide; simpl.
    2:{ intros [= <-]. by rewrite emitted_nil. }
    destruct (polls s !! data) as [t|] eqn:Ht; simpl; [|done].
    destruct (t !! "Setuju") as [na|] eqn:Hna; simpl; [|done].
    destruct (t !! "Tidak Setuju") as [nd|] eqn:Hnd; simpl; [|done].
    case_decide; simpl; intros [= <-] _; rewrite <- ?app_assoc, emitted_app;
      unfold tally_of; simpl; rewrite Ht; simpl; rewrite Hna, Hnd; simpl.
    + done.
    + split; [done|lia].
Qed.

(** What [add_mod] leaves behind when it opens a poll. *)
Lemma add_mod_opens (t0 chat msg : Z) (args q : string) (s0 : state) :
  job_queue (add_mod t0 chat args true false q msg s0).2
  = job_queue s0 ++ [Job "poll_stopper" q chat (t0 + 3600)]
  ∧ bot_data (add_mod t0 chat args true false q msg s0).2
    = <[q := PollInfo ["Setuju"; "Tidak Setuju"] msg chat 0
               ("https://steamcommunity.com/sharedfiles/filedetails/?id=" +:+ args)
               (t0 + 3600)]> (bot_data s0).
Proof. done. Qed.

(** C1: whenever a run of a handler closes a poll (by the deadline job or
    by the fifth answer), it triggers the resolution and installation of
    the mod if and only if the Agree tally is strictly greater than the
    Disagree tally at that moment; a tie or a minority triggers nothing. *)
Theorem C1_outcome_rule (Q now : Z) (ev : event) (s s' : state) :
  handle Q now ev s = (Ok (), s') →
  closes (emitted s s') = true →
  triggers_install (emitted s s') = true
  ↔ tally_of s' (event_poll ev) "Setuju" > tally_of s' (event_poll ev) "Tidak Setuju".
Proof. apply close_decides_by_majority. Qed.

Lemma C1_witness :
  triggers_install (emitted (run_votes 7 four_votes demo_open)
      (handle 7 50 (Vote (agree 5)) (run_votes 7 four_votes demo_open)).2) = true
  ↔ tally_of (handle 7 50 (Vote (agree 5)) (run_votes 7 four_votes demo_open)).2
      "p" "Setuju"
    > tally_of (handle 7 50 (Vote (agree 5)) (run_votes 7 four_votes demo_open)).2
        "p" "Tidak Setuju".
Proof.
  apply (C1_outcome_rule 7 50 (Vote (agree 5)) (run_votes 7 four_votes demo_open));
    by vm_compute.
Defined.

(** Appending labels. *)
Lemma label_app_assoc (a b c : string) : (a +:+ b) +:+ c = a +:+ (b +:+ c).
Proof.
  induction a as [|x a IH]; [done|].
  change (String x ((a +:+ b) +:+ c) = String x (a +:+ b +:+ c)). by rewrite IH.
Qed.

(** When the last chosen index is chosen once, the loop joins the chosen
    labels with [" dan "]. *)
Lemma answer_string_loop_joins (questions : list string) (last : nat) (init : list nat) :
  last ∉ init →
  ∀ acc a,
    answer_string_loop questions last (init ++ [last]) acc = Ok a →
    ∃ labels,
      Forall2 (λ i q, questions !! i = Some q) (init ++ [last]) labels
      ∧ a = acc +:+ String.concat " dan " labels.
Proof.
  induction init as [|i init IH]; intros Hlast acc a; cbn [app answer_string_loop].
  - destruct (questions !! last) as [q|] eqn:Hq; [|done]. cbn.
    rewrite decide_False by (by intros ?). intros [= <-].
    exists [q]. split; [by repeat constructor|done].
  - apply not_elem_of_cons in Hlast as [Hne Hlast].
    destruct (questions !! i) as [q|] eqn:Hq; [|done]. cbn.
    rewrite decide_True by done.
    intros (labels & Hall & ->)%IH; [|done].
    exists (q :: labels). split; [by constructor|].
    destruct labels as [|q' labels].
    { apply Forall2_length in Hall. rewrite length_app in Hall. simpl in Hall. lia. }
    change (String.concat " dan " (q :: q' :: labels))
      with (q +:+ " dan " +:+ String.concat " dan " (q' :: labels)).
    by rewrite !label_app_assoc.
Qed.

Lemma answer_string_joins (questions : list string) (selected : list nat) (a : string) :
  NoDup selected →
  answer_string_loop questions (List.last selected 0%nat) selected "" = Ok a →
  ∃ labels,
    Forall2 (λ i q, questions !! i = Some q) selected labels
    ∧ a = String.concat " dan " labels.
Proof.
  destruct selected as [|i selected _] using rev_ind.
  - intros _ [= <-]. exists []. split; [constructor|done].
  - intros [_ [Hnew _]]%NoDup_app. rewrite List.last_last.
    intros (labels & Hall & ->)%answer_string_loop_joins.
    + by exists labels.
    + intros Hin. apply (Hnew i Hin). by left.
Qed.

(** The handler keeps no record of who voted: voter 1 answers Agree and
    is counted; the later answer Disagree of the same voter for the same
    poll is counted as well. *)
Lemma C2_counterexample : ¬ spec_vote_dedup.
Proof.
  intros H.
  pose (s1 := (receive_poll_answer 3 5 (agree 1) demo_open).2).
  pose (s2 := (receive_poll_answer 3 6 (disagree 1) s1).2).
  assert (polls s2 = polls s1) as E.
  { apply (H 3 5 6 (agree 1) (disagree 1) demo_open s1 s2); by vm_compute. }
  apply (f_equal (λ m, m !! "p" ≫= (.!! "Tidak Setuju"))) in E.
  vm_compute in E. discriminate E.
Qed.

(** C2 (amended): every vote event the handler accepts raises by exactly
    one the tally of the label the handler builds from the chosen options
    (for distinct option indices, the labels of the chosen options joined
    by [" dan "]; for a single choice, the label of that option), leaves
    every other tally alone and raises the answer count of the poll by
    one, whoever the voter is: the tallies reached do not depend on the
    voter id, and no set of counted voters is kept. *)
Theorem C2_every_vote_event_counts (Q now : Z) (ans : poll_answer) (s s' : state) :
  receive_poll_answer Q now ans s = (Ok (), s') →
  ∃ (label : string) (info info' : poll_info),
    tally_of s' (poll_id ans) label = tally_of s (poll_id ans) label + 1
    ∧ (∀ l, l ≠ label → tally_of s' (poll_id ans) l = tally_of s (poll_id ans) l)
    ∧ bot_data s !! poll_id ans = Some info
    ∧ bot_data s' !! poll_id ans = Some info'
    ∧ answers info' = answers info + 1
    ∧ (∀ u, polls (receive_poll_answer Q now
                     (PollAnswer (poll_id ans) u (option_ids ans)) s).2 = polls s')
    ∧ answer_string_loop (questions info) (List.last (option_ids ans) 0%nat)
        (option_ids ans) "" = Ok label
    ∧ (NoDup (option_ids ans) →
       ∃ labels,
         Forall2 (λ i q, questions info !! i = Some q) (option_ids ans) labels
         ∧ label = String.concat " dan " labels).
Proof.
  intros H.
  apply receive_poll_answer_inv in H as (info & a & t & c & Hi & Ha & Ht & Hc & Hp & Hrest).
  exists a, info.
  assert (∃ info', bot_data s' !! poll_id ans = Some info'
                   ∧ answers info' = answers info + 1) as (info' & Hi' & Hans).
  { repeat case_decide; destruct Hrest as (-> & _); rewrite lookup_insert_eq; eauto. }
  exists info'. unfold tally_of. rewrite Hp, Ht, lookup_insert_eq. simpl.
  rewrite lookup_insert_eq, Hc. simpl.
  split; [done|]. split; [by intros l Hl; rewrite lookup_insert_ne|].
  repeat (split; [done|]).
  split; [|split; [done|intros Hnd; by apply answer_string_joins]].
  intros u. clear -Hi Ha Ht Hc.
  destruct ans as [p u0 opts]. step_monad. rewrite Hi. simpl. rewrite Ha. simpl.
  rewrite Ht. simpl. rewrite Hc. simpl.
  repeat (case_decide; simpl); try done.
  rewrite lookup_insert_eq. simpl.
  repeat (case_match; simpl); done.
Qed.

Lemma C2_witness :
  ∃ (label : string) (info info' : poll_info),
    tally_of (receive_poll_answer 3 5 (agree 1) demo_open).2 "p" label
      = tally_of demo_open "p" label + 1
    ∧ (∀ l, l ≠ label →
         tally_of (receive_poll_answer 3 5 (agree 1) demo_open).2 "p" l
         = tally_of demo_open "p" l)
    ∧ bot_data demo_open !! "p" = Some info
    ∧ bot_data (receive_poll_answer 3 5 (agree 1) demo_open).2 !! "p" = Some info'
    ∧ answers info' = answers info + 1
    ∧ (∀ u, polls (receive_poll_answer 3 5 (PollAnswer "p" u [0%nat]) demo_open).2
            = polls (receive_poll_answer 3 5 (agree 1) demo_open).2)
    ∧ answer_string_loop (questions info) (List.last [0%nat] 0%nat) [0%nat] "" = Ok label
    ∧ (NoDup [0%nat] →
       ∃ labels,
         Forall2 (λ i q, questions info !! i = Some q) [0%nat] labels
         ∧ label = String.concat " dan " labels).
Proof.
  apply (C2_every_vote_event_counts 3 5 (agree 1) demo_open). by vm_compute.
Defined.







(** C10: let a poll [q] be opened by [add_mod], so that its deadline job
    sits in the queue under the name [poll_stopper]. When an accepted vote
    for another poll makes that poll's answer count equal to the quorum
    threshold or to 5, every job named [poll_stopper] left in the queue
    belongs to the voted poll: [q] has lost its deadline job, although its
    payload is untouched and it is still open. *)
Theorem C10_timer_removal_not_scoped (Q now t0 chat msg : Z) (args q : string)
    (ans : poll_answer) (s0 s' : state) (info : poll_info) :
  poll_id ans ≠ q →
  bot_data (add_mod t0 chat args true false q msg s0).2 !! poll_id ans = Some info →
  answers info + 1 = Q ∨ answers info + 1 = 5 →
  receive_poll_answer Q now ans (add_mod t0 chat args true false q msg s0).2 = (Ok (), s') →
  Job "poll_stopper" q chat (t0 + 3600) ∈ job_queue (add_mod t0 chat args true false q msg s0).2
  ∧ (∀ j, j ∈ job_queue s' → job_name j = "poll_stopper" → job_data j = poll_id ans)
  ∧ (∀ j, j ∈ job_queue s' → job_data j = q → job_name j ≠ "poll_stopper")
  ∧ bot_data s' !! q = bot_data (add_mod t0 chat args true false q msg s0).2 !! q.
Proof.
  destruct (add_mod_opens t0 chat msg args q s0) as [Hjq0 Hbd0].
  generalize dependent (add_mod t0 chat args true false q msg s0).2.
  intros s Hjq0 Hbd0 Hne Hi Hreach H.
  apply receive_poll_answer_inv in H as (info0 & a & t & c & Hi0 & _ & _ & _ & _ & Hrest).
  rewrite Hi in Hi0. injection Hi0 as <-.
  split.
  { rewrite Hjq0. apply elem_of_app. right. by apply list_elem_of_singleton. }
  assert (∀ j, j ∈ job_queue s' → job_name j = "poll_stopper" → job_data j = poll_id ans)
    as Hall.
  { intros j Hj Hname.
    destruct (decide (answers info + 1 = Q)) as [HQ|HQ].
    - destruct Hrest as (_ & Hjq & _).
      rewrite Hjq in Hj. apply elem_of_app in Hj as [Hj|Hj].
      + apply list_elem_of_filter in Hj as [Hj _]. by destruct Hj.
      + apply list_elem_of_singleton in Hj. by subst j.
    - assert (answers info + 1 = 5) as H5 by (by destruct Hreach).
      rewrite decide_True in Hrest by done.
      destruct Hrest as (_ & Hjq & _). rewrite Hjq in Hj.
      apply list_elem_of_filter in Hj as [Hj _]. by destruct Hj. }
  split; [done|]. split.
  - intros j Hj Hdata Hname. apply Hne. rewrite <- Hdata. symmetry. by apply Hall.
  - repeat case_decide; destruct Hrest as (-> & _); by rewrite lookup_insert_ne.
Qed.

Lemma C10_witness :
  Job "poll_stopper" "q" 10 (100 + 3600) ∈ job_queue two_polls
  ∧ (∀ j, j ∈ job_queue (receive_poll_answer 1 200 (agree 1) two_polls).2 →
          job_name j = "poll_stopper" → job_data j = "p")
  ∧ (∀ j, j ∈ job_queue (receive_poll_answer 1 200 (agree 1) two_polls).2 →
          job_data j = "q" → job_name j ≠ "poll_stopper")
  ∧ bot_data (receive_poll_answer 1 200 (agree 1) two_polls).2 !! "q"
    = bot_data two_polls !! "q".
Proof.
  apply (C10_timer_removal_not_scoped 1 200 100 10 78 "456" "q" (agree 1) demo_open _
           (demo_info 0)).
  - by vm_compute.
  - by vm_compute.
  - left. by vm_compute.
  - by vm_compute.
Defined.

End BotFacts.

(** * Properties of the mod manager *)

Module ModManagerFacts.

Import ModGraph ModManager.

Definition workshop_url (id : string) : string :=
  "https://steamcommunity.com/sharedfiles/filedetails/?id=" +:+ id.

(** The catalog id and the internal ids of an entry, empty when missing. *)
Definition wid (m : metadata) : string := default "" (workshop_id m).
Definition ids (m : metadata) : list string := default [] (mod_id m).

Definition is_new (workshop_ids : list string) (m : metadata) : Prop :=
  wid m ∉ workshop_ids.

#[local] Instance is_new_dec workshop_ids m : Decision (is_new workshop_ids m).
Proof. unfold is_new. apply _. Defined.

(** The design document's reading of the insertion: the new entries go to
    the front of both lists in the order of the batch. *)
Definition spec_add_to_config (values : list metadata) (workshop_ids mod_ids : list string)
    : list string * list string :=
  let new := filter (is_new workshop_ids) values in
  ((wid <$> new) ++ workshop_ids, mjoin (ids <$> new) ++ mod_ids).

Definition entry (id : string) (internal : list string) : metadata :=
  Metadata (Some (workshop_url id)) (Some ("Mod " +:+ id)) (Some id) (Some internal) None.

(** Item 123 requires item 456, whose page times out on the first request
    and is served from the second on. *)
Definition flaky_catalog (url : string) (n : nat) : response :=
  if decide (url = workshop_url "123") then
    Fetched (Page (Some "Root") (Some ["root"]) (Some [Some (workshop_url "456")]))
  else if decide (url = workshop_url "456") then
    match n with
    | O => Timeout
    | S _ => Fetched (Page (Some "Lib") (Some ["lib"]) None)
    end
  else Timeout.

Definition fresh_manager : manager (Config := ()) := Manager [] ∅ () empty None.

(** A manager whose graph holds 123 and 456 and the edge 123 → 456. *)
Definition linked_graph : ZomboidModGraph :=
  ModGraph
    (Graph [Vertex "123" (Some "Root") (Some (workshop_url "123")) (Some ["root"]);
            Vertex "456" (Some "Lib") (Some (workshop_url "456")) (Some ["lib"])]
       [(0, 1)])
    [("123", Metadata (Some (workshop_url "123")) (Some "Root") (Some "123")
               (Some ["root"]) (Some ["456"]));
     ("456", Metadata (Some (workshop_url "456")) (Some "Lib") (Some "456")
               (Some ["lib"]) None)].

Definition linked_manager : manager (Config := ()) :=
  Manager [] ∅ () linked_graph None.

Lemma is_new_cons_ne (w : string) (workshop_ids : list string) (m : metadata) :
  wid m ≠ w → (is_new (w :: workshop_ids) m ↔ is_new workshop_ids m).
Proof. unfold is_new. rewrite not_elem_of_cons. tauto. Qed.

(** The loop of [add_to_config] puts every new entry in front of the ones
    before it. *)
Lemma add_to_config_loop_spec (values : list metadata) :
  ∀ workshop_ids mod_ids,
    Forall (λ m, is_Some (workshop_id m) ∧ is_Some (mod_id m)) values →
    NoDup (wid <$> values) →
    add_to_config_loop values workshop_ids mod_ids
    = Ok (reverse (wid <$> filter (is_new workshop_ids) values) ++ workshop_ids,
          mjoin (reverse (ids <$> filter (is_new workshop_ids) values)) ++ mod_ids).
Proof.
  unfold add_to_config_loop.
  induction values as [|m values IH]; intros workshop_ids mod_ids Hok Hnd; [done|].
  apply Forall_cons in Hok as [[[w Hw] [i Hi]] Hok].
  rewrite fmap_cons in Hnd. apply NoDup_cons in Hnd as [Hfresh Hnd].
  assert (wid m = w) as Hwid by (unfold wid; by rewrite Hw).
  assert (ids m = i) as Hids by (unfold ids; by rewrite Hi).
  simpl. rewrite Hw. simpl.
  destruct (decide (w ∉ workshop_ids)) as [Hnew|Hold]; simpl.
  - rewrite filter_cons_True by (unfold is_new; by rewrite Hwid).
    rewrite Hi. simpl. rewrite IH by done.
    assert (filter (is_new (w :: workshop_ids)) values = filter (is_new workshop_ids) values)
      as ->.
    { clear -Hfresh Hwid. induction values as [|m' values IH]; [done|].
      rewrite fmap_cons, not_elem_of_cons in Hfresh. destruct Hfresh as [Hne Hfresh].
      rewrite !filter_cons, IH by done.
      destruct (decide (is_new workshop_ids m')) as [Hn|Hn].
      - rewrite decide_True; [done|]. apply is_new_cons_ne; [congruence|done].
      - rewrite decide_False; [done|]. rewrite is_new_cons_ne; [done|congruence]. }
     change (list_fmap metadata string wid) with (fmap (M := list) wid).
    change (list_fmap metadata (list string) ids) with (fmap (M := list) ids).
    rewrite !reverse_cons, Hwid, Hids, join_app, <- !app_assoc. simpl.
    by rewrite app_nil_r.
  - rewrite filter_cons_False by (unfold is_new; by rewrite Hwid).
    by rewrite IH.
Qed.

(** With a batch of two new items, the second ends up first. *)
Lemma C9_counterexample :
  add_to_config_loop [entry "1" ["a"]; entry "2" ["b"]] [""] [""]
  ≠ Ok (spec_add_to_config [entry "1" ["a"]; entry "2" ["b"]] [""] [""]).
Proof. by vm_compute. Qed.

(** C9 (amended): for a batch whose entries carry their catalog id and
    internal ids, with distinct catalog ids, [add_to_config] skips the
    entries whose catalog id is already in the WorkshopItems list and
    inserts each other entry at the front of both lists as it meets it:
    the catalog ids of the inserted entries end up in the reverse of the
    batch order, before the initial list, and so do their groups of
    internal ids, each group keeping its own order. *)
Theorem C9_add_to_config_prepends (values : list metadata)
    (workshop_ids mod_ids : list string) :
  Forall (λ m, is_Some (workshop_id m) ∧ is_Some (mod_id m)) values →
  NoDup (wid <$> values) →
  add_to_config_loop values workshop_ids mod_ids
  = Ok (reverse (wid <$> filter (is_new workshop_ids) values) ++ workshop_ids,
        mjoin (reverse (ids <$> filter (is_new workshop_ids) values)) ++ mod_ids).
Proof. apply add_to_config_loop_spec. Qed.

Lemma C9_witness :
  add_to_config_loop [entry "1" ["a"; "a2"]; entry "7" ["x"]; entry "2" ["b"]]
    ["7"; "8"] ["x"; "y"]
  = Ok (reverse (wid <$> filter (is_new ["7"; "8"])
                   [entry "1" ["a"; "a2"]; entry "7" ["x"]; entry "2" ["b"]])
          ++ ["7"; "8"],
        mjoin (reverse (ids <$> filter (is_new ["7"; "8"])
                          [entry "1" ["a"; "a2"]; entry "7" ["x"]; entry "2" ["b"]]))
          ++ ["x"; "y"]).
Proof.
  apply (C9_add_to_config_prepends
           [entry "1" ["a"; "a2"]; entry "7" ["x"]; entry "2" ["b"]] ["7"; "8"] ["x"; "y"]).
  - repeat constructor; by eexists.
  - apply (bool_decide_unpack _). by vm_compute.
Defined.

(** [delete_mod] only reads the graph. *)
Lemma delete_mod_frame {Config : Type} (identifier : string) (force : bool)
    (m : manager (Config := Config)) :
  (delete_mod identifier force m).2 = m.
Proof.
  unfold delete_mod, get_mod_dependents, bind, get, lift, ret, raise. simpl.
  destruct (get_dependents (_mod_graph m) identifier) as [[|d ds]|e]; simpl; [done| |done].
  by destruct force.
Qed.

(** The first half of the deletion rule holds: a node with a dependent is
    not deleted without the override, and the call raises. *)
Lemma delete_mod_rejects {Config : Type} (identifier : string)
    (m : manager (Config := Config)) (d : string) (ds : list string) :
  get_dependents (_mod_graph m) identifier = Ok (d :: ds) →
  delete_mod identifier false m
  = (Raise (ValueError "Can't be deleted because has dependents:"), m).
Proof.
  intros H. unfold delete_mod, get_mod_dependents, bind, get, lift, ret, raise. simpl.
  by rewrite H.
Qed.

(** C8: [delete_mod] never changes the manager, whatever the request. In
    the graph 123 → 456, deleting 456 with the override answers [True],
    and 456, its dependent 123 and the edge between them are all still
    there. *)
Theorem C8_delete_mod_removes_nothing :
  (∀ (identifier : string) (force : bool) (m : manager (Config := ())),
     (delete_mod identifier force m).2 = m)
  ∧ get_dependents linked_graph "456" = Ok ["123"]
  ∧ delete_mod "456" true linked_manager = (Ok true, linked_manager)
  ∧ "456" ∈ node_names (graph (_mod_graph (delete_mod "456" true linked_manager).2))
  ∧ (Some "123", Some "456")
      ∈ edge_names (graph (_mod_graph (delete_mod "456" true linked_manager).2)).
Proof.
  split; [intros; apply delete_mod_frame|].
  split; [by vm_compute|]. split; [by vm_compute|].
  split; apply (bool_decide_unpack _); by vm_compute.
Qed.

(** C5: the required item 456 times out on the first request and is served
    on the retry. [get_required_mod] then returns the result of the retry
    alone: the mapping holds 456 and has lost the root 123, and nothing
    records that 123 requires 456. *)
Theorem C5_retry_result_replaces_mapping :
  (get_required_mod flaky_catalog 1000 (workshop_url "123") 2 fresh_manager).1
  = Ok (Some [("456", Metadata (Some (workshop_url "456")) (Some "Lib") (Some "456")
                        (Some ["lib"]) None)])
  ∧ (_request_required_mod flaky_catalog 1000 (workshop_url "123") None None
       fresh_manager).1 = Ok None
  ∧ timed_out_url (_request_required_mod flaky_catalog 1000 (workshop_url "123") None None
                     fresh_manager).2 = [workshop_url "456"].
Proof. repeat split; by vm_compute. Qed.

End ModManagerFacts.

(** * Properties of the dependency graph *)

Module ModGraphFacts.

Import ModGraph.

(** The edges a metadata document stands for: owner and required id, for
    the required ids that are themselves keys of the document. *)
Definition required_pairs (document : list (string * metadata))
    : list (option string * option string) :=
  mjoin ((λ '(k, info),
           (λ req, (Some k, Some req)) <$>
             filter (λ req, req ∈ dict_keys document) (default [] (required info)))
         <$> document).

(** The resolution of an edge given by names, as [add_edges] does it. *)
Definition resolve (g : igraph) (e : string * string) : result (nat * nat) :=
  let '(s, t) := e in i ← find s g ; j ← find t g ; Ok (i, j).

(** The local set [existing_nodes] holds the names of the graph. *)
Definition names_known (g : igraph) (existing_nodes : gset string) : Prop :=
  ∀ n, n ∈ existing_nodes ↔ n ∈ node_names g.

(** The edge from the node of [k] to the node of [dep] is there. *)
Definition linked (g : igraph) (k dep : string) : Prop :=
  ∃ i j, find_name k (vs g) = Some i ∧ find_name dep (vs g) = Some j ∧ (i, j) ∈ es g.

(** An item of a batch is absorbed when merging it again would change
    nothing: its metadata is stored, its node carries its attributes and
    every required id is linked. *)
Definition absorbed (g : igraph) (document : list (string * metadata))
    (item : string * metadata) : Prop :=
  dict_get document item.1 = Some item.2
  ∧ (∃ i v, find_name item.1 (vs g) = Some i ∧ vs g !! i = Some v
            ∧ set_attributes item.2 v = v)
  ∧ ∀ dep, dep ∈ default [] (required item.2) → linked g item.1 dep.

(** What merging keeps of a graph: the index of every name and every edge. *)
Definition extends (g g' : igraph) : Prop :=
  (∀ n i, find_name n (vs g) = Some i → find_name n (vs g') = Some i)
  ∧ (∀ e, e ∈ es g → e ∈ es g').

Definition keeps_vertices (P : string → Prop) (g g' : igraph) : Prop :=
  ∀ i v, vs g !! i = Some v → P (name v) → vs g' !! i = Some v.

(** The design document's reading of persistence, for the states a merge
    into the empty graph reaches. *)
Definition spec_save_load_roundtrip : Prop :=
  ∀ (batch : list (string * metadata)) (self self' : ZomboidModGraph)
    (file : option (list (string * metadata))),
    update_by_metadata empty batch = Ok self →
    load (save self file) = Ok self' →
    (∀ n, n ∈ node_names (graph self') ↔ n ∈ node_names (graph self))
    ∧ (∀ e, e ∈ edge_names (graph self') ↔ e ∈ edge_names (graph self)).

(** Item 123 requires 456, which is not part of the batch: 456 becomes a
    stub node. *)
Definition stub_batch : list (string * metadata) :=
  [("123", Metadata (Some "https://steamcommunity.com/sharedfiles/filedetails/?id=123")
             (Some "Root") (Some "123") (Some ["root"]) (Some ["456"]))].

Definition stub_graph : ZomboidModGraph :=
  ModGraph
    (Graph [Vertex "123" (Some "Root")
              (Some "https://steamcommunity.com/sharedfiles/filedetails/?id=123")
              (Some ["root"]);
            Vertex "456" (Some "") (Some "") (Some [])]
       [(0, 1)])
    stub_batch.


Section DictFacts.
Context {V : Type}.
Implicit Types (d : list (string * V)) (k : string) (v : V).

Lemma dict_get_set_eq d k v : dict_get (dict_set d k v) k = Some v.
Proof.
  induction d as [|[k' v'] d IH]; simpl.
  - by rewrite decide_True.
  - destruct (decide (k' = k)) as [->|Hne]; simpl.
    + by rewrite decide_True.
    + by rewrite decide_False.
Qed.

Lemma dict_get_set_ne d k k' v : k' ≠ k → dict_get (dict_set d k' v) k = dict_get d k.
Proof.
  intros Hne. induction d as [|[k0 v0] d IH]; simpl.
  - by rewrite decide_False.
  - destruct (decide (k0 = k')) as [->|Hne0]; simpl.
    + by rewrite !decide_False.
    + destruct (decide (k0 = k)); [done|apply IH].
Qed.

Lemma dict_set_id d k v : dict_get d k = Some v → dict_set d k v = d.
Proof.
  induction d as [|[k' v'] d IH]; simpl; [done|].
  destruct (decide (k' = k)) as [->|Hne].
  - by intros [= ->].
  - intros H. by rewrite IH.
Qed.

Lemma dict_get_Some_keys d k : k ∈ dict_keys d → is_Some (dict_get d k).
Proof.
  unfold dict_keys. induction d as [|[k' v'] d IH]; simpl.
  - by intros ?%elem_of_nil.
  - intros [->|Hin]%elem_of_cons.
    + rewrite decide_True; eauto.
    + destruct (decide (k' = k)); eauto.
Qed.

End DictFacts.

Lemma find_name_names (n : string) (l l' : list vertex) :
  name <$> l = name <$> l' → find_name n l = find_name n l'.
Proof.
  revert l'. induction l as [|v l IH]; intros [|v' l'] H; try done.
  rewrite !fmap_cons in H. injection H as Hv Hl.
  simpl. rewrite Hv. by rewrite (IH l').
Qed.

Lemma find_name_lookup (n : string) (l : list vertex) (i : nat) :
  find_name n l = Some i → ∃ v, l !! i = Some v ∧ name v = n.
Proof.
  revert i. induction l as [|v l IH]; intros i; simpl; [done|].
  destruct (decide (name v = n)) as [Hn|Hn].
  - intros [= <-]. eauto.
  - destruct (find_name n l) as [j|]; simpl; [|done].
    intros [= <-]. simpl. by apply IH.
Qed.

Lemma find_name_is_Some (n : string) (l : list vertex) :
  n ∈ name <$> l ↔ is_Some (find_name n l).
Proof.
  induction l as [|v l IH]; csimpl.
  - split; [by intros ?%elem_of_nil | by intros [? ?]].
  - rewrite elem_of_cons. destruct (decide (name v = n)) as [Hn|Hn].
    + split; eauto.
    + rewrite IH, fmap_is_Some. split; [by intros [?|?] | by right].
Qed.

Lemma find_name_app_l (n : string) (l l' : list vertex) (i : nat) :
  find_name n l = Some i → find_name n (l ++ l') = Some i.
Proof.
  revert i. induction l as [|v l IH]; intros i; simpl; [done|].
  destruct (decide (name v = n)); [done|].
  destruct (find_name n l) as [j|]; simpl; [|done].
  intros [= <-]. by rewrite (IH j).
Qed.

Lemma find_name_snoc_new (n : string) (l : list vertex) (v : vertex) :
  n ∉ name <$> l → name v = n → find_name n (l ++ [v]) = Some (length l).
Proof.
  intros Hn Hv. induction l as [|v' l IH]; csimpl.
  - by rewrite decide_True.
  - rewrite fmap_cons, not_elem_of_cons in Hn. destruct Hn as [Hne Hn].
    rewrite decide_False by done. by rewrite IH.
Qed.

Lemma names_alter (f : vertex → vertex) (i : nat) (l : list vertex) :
  (∀ v, l !! i = Some v → name (f v) = name v) →
  name <$> alter f i l = name <$> l.
Proof.
  revert i. induction l as [|v l IH]; intros [|i] H; csimpl; try done.
  - f_equal. by apply H.
  - f_equal. by apply IH.
Qed.

Lemma alter_fixed (f : vertex → vertex) (i : nat) (l : list vertex) (v : vertex) :
  l !! i = Some v → f v = v → alter f i l = l.
Proof.
  revert i. induction l as [|v' l IH]; intros [|i]; simpl; try done.
  - by intros [= ->] ->.
  - intros H Hf. f_equal. by apply IH.
Qed.

Lemma for_each_cons {S A : Type} (body : S → A → result S) (s : S) (a : A) (l : list A) :
  for_each body s (a :: l) = (s' ← body s a ; for_each body s' l).
Proof. done. Qed.

(** A loop keeps what every turn of its body keeps. *)
Lemma for_each_invariant {S A : Type} (P : S → Prop) (body : S → A → result S)
    (l : list A) (s : S) :
  P s →
  (∀ s a, a ∈ l → P s → ∃ s', body s a = Ok s' ∧ P s') →
  ∃ s', for_each body s l = Ok s' ∧ P s'.
Proof.
  revert s. induction l as [|a l IH]; intros s Hs Hbody; simpl; [eauto|].
  destruct (Hbody s a) as (s1 & -> & Hs1); [by left|done|]. simpl.
  apply IH; [done|]. intros s2 b Hb. apply Hbody. by right.
Qed.

Lemma find_ok (n : string) (g : igraph) :
  n ∈ node_names g → ∃ i, find n g = Ok i ∧ name <$> vs g !! i = Some n.
Proof.
  intros [i Hi]%find_name_is_Some. exists i. unfold find. rewrite Hi. split; [done|].
  apply find_name_lookup in Hi as (v & -> & <-). done.
Qed.

Lemma resolve_edges (g : igraph) (edges : list (string * string)) :
  Forall (λ e, e.1 ∈ node_names g ∧ e.2 ∈ node_names g) edges →
  ∃ new_edges,
    mapM (resolve g) edges = Ok new_edges
    ∧ (λ e, (name <$> vs g !! e.1, name <$> vs g !! e.2)) <$> new_edges
      = (λ e, (Some e.1, Some e.2)) <$> edges.
Proof.
  induction 1 as [|[s t] edges [Hs Ht] _ (new_edges & Hnew & Hnames)]; [by exists []|].
  destruct (find_ok s g Hs) as (i & Hi & Hni), (find_ok t g Ht) as (j & Hj & Hnj).
  exists ((i, j) :: new_edges). split.
  - change (mapM (resolve g) ((s, t) :: edges))
      with (y ← resolve g (s, t) ; k ← mapM (resolve g) edges ; mret (y :: k)).
    rewrite Hnew. unfold resolve. rewrite Hi. cbn. rewrite Hj. done.
  - csimpl. by rewrite Hni, Hnj, Hnames.
Qed.

Lemma attribute_loop (document : list (string * metadata)) (vertices : list string)
    (g : igraph) :
  vertices ⊆ dict_keys document →
  vertices ⊆ node_names g →
  ∃ g',
    for_each (λ g vid,
        info ← expect KeyError (dict_get document vid) ;
        i ← find vid g ;
        Ok (Graph (alter (λ v, set_attributes info
                                 (Vertex vid (v_mod_name v) (v_url v) (v_mod_id v)))
                     i (vs g)) (es g)))
      g vertices = Ok g'
    ∧ node_names g' = node_names g ∧ es g' = es g.
Proof.
  intros Hkeys Hnames.
  apply (for_each_invariant (λ g', node_names g' = node_names g ∧ es g' = es g)); [done|].
  intros g1 vid Hvid [Hn1 He1].
  destruct (dict_get_Some_keys document vid) as [info ->]; [by apply Hkeys|].
  destruct (find_name_is_Some vid (vs g1)) as [[i Hi] _].
  { fold (node_names g1). rewrite Hn1. by apply Hnames. }
  unfold find. rewrite Hi. cbn. eexists. split; [done|]. split; [|done].
  rewrite <- Hn1. unfold node_names. simpl. apply names_alter.
  intros v Hv. simpl. apply find_name_lookup in Hi as (v' & Hv' & <-). congruence.
Qed.

Lemma pairs_fmap (keys : list string) (document : list (string * metadata)) :
  (λ e : string * string, (Some e.1, Some e.2)) <$>
    mjoin ((λ '(k, info),
             (λ req, (k, req)) <$>
               filter (λ req, req ∈ keys) (default [] (required info))) <$> document)
  = mjoin ((λ '(k, info),
             (λ req, (Some k, Some req)) <$>
               filter (λ req, req ∈ keys) (default [] (required info))) <$> document).
Proof.
  induction document as [|[k info] document IH]; [done|].
  csimpl. rewrite fmap_app, IH. f_equal.
  by rewrite <- list_fmap_compose.
Qed.

Lemma build_from_document (document : list (string * metadata)) :
  ∃ self,
    _build_graph (ModGraph (Graph [] []) document) = Ok self
    ∧ mod_data self = document
    ∧ node_names (graph self) = dict_keys document
    ∧ edge_names (graph self) = required_pairs document.
Proof.
  unfold _build_graph. cbn [mod_data graph].
  set (g0 := add_vertices (Graph [] []) (dict_keys document)).
  assert (node_names g0 = dict_keys document) as Hn0.
  { unfold g0, node_names, add_vertices. simpl. rewrite <- list_fmap_compose.
    by rewrite list_fmap_id. }
  destruct (attribute_loop document (dict_keys document) g0) as (g & -> & Hn & He);
    [done|by rewrite Hn0|].
  rewrite Hn0 in Hn. cbn.
  set (edges := mjoin _).
  destruct (resolve_edges g edges) as (new_edges & Hmap & Hnames).
  { rewrite Hn. unfold edges. apply Forall_forall. intros [s t] Hin. simpl.
    apply list_elem_of_join in Hin as (l & Hst & Hl).
    apply list_elem_of_fmap in Hl as ([k info] & -> & Hk).
    apply list_elem_of_fmap in Hst as (req & [= -> ->] & Hreq).
    apply list_elem_of_filter in Hreq as [Hreq _]. split; [|done].
    unfold dict_keys. by apply (list_elem_of_fmap_2 fst _ (k, info)). }
  eexists. split.
  { unfold resolve in Hmap. rewrite Hmap. cbn. reflexivity. }
  simpl. split; [done|]. split; [done|].
  unfold edge_names. simpl. rewrite He. simpl. rewrite Hnames.
  apply pairs_fmap.
Qed.

Lemma extends_refl g : extends g g.
Proof. by split. Qed.

Lemma extends_trans g1 g2 g3 : extends g1 g2 → extends g2 g3 → extends g1 g3.
Proof. intros [H1 H2] [H3 H4]. split; eauto. Qed.

Lemma keeps_vertices_trans P g1 g2 g3 :
  keeps_vertices P g1 g2 → keeps_vertices P g2 g3 → keeps_vertices P g1 g3.
Proof. intros H1 H2 i v Hv HP. apply H2; [|done]. by apply H1. Qed.

Lemma keeps_vertices_weaken (P Q : string → Prop) g g' :
  (∀ n, Q n → P n) → keeps_vertices P g g' → keeps_vertices Q g g'.
Proof. intros HPQ H i v Hv HQ. apply H; auto. Qed.

Lemma linked_extends g g' k dep : extends g g' → linked g k dep → linked g' k dep.
Proof. intros [Hf He] (i & j & Hi & Hj & Hij). exists i, j. auto. Qed.

Lemma extends_add_vertex g v : extends g (add_vertex g v).
Proof. split; [|done]. intros n i. apply find_name_app_l. Qed.

Lemma keeps_add_vertex P g v : keeps_vertices P g (add_vertex g v).
Proof. intros i w Hw _. simpl. by apply lookup_app_l_Some. Qed.

Lemma names_known_add g existing_nodes v :
  names_known g existing_nodes →
  names_known (add_vertex g v) ({[name v]} ∪ existing_nodes).
Proof.
  intros H n. unfold node_names. simpl. rewrite fmap_app, elem_of_app, elem_of_union.
  rewrite (H n), elem_of_singleton. csimpl. rewrite list_elem_of_singleton. tauto.
Qed.

(** The two lookups and the edge insertion that end the inner loop body. *)
Lemma connect_ok (g : igraph) (existing_nodes : gset string) (k dep : string) :
  k ∈ node_names g → dep ∈ node_names g →
  ∃ g',
    (source_idx ← find k g ;
     target_idx ← find dep g ;
     if are_connected g source_idx target_idx then Ok (g, existing_nodes)
     else Ok (add_edge g source_idx target_idx, existing_nodes))
    = Ok (g', existing_nodes)
    ∧ vs g' = vs g ∧ extends g g' ∧ linked g' k dep.
Proof.
  intros [i Hi]%find_name_is_Some [j Hj]%find_name_is_Some.
  unfold find. rewrite Hi, Hj. cbn. unfold are_connected.
  destruct (bool_decide ((i, j) ∈ es g)) eqn:Hc.
  - apply bool_decide_eq_true in Hc.
    exists g. split_and!; [done|done|apply extends_refl|by exists i, j].
  - exists (add_edge g i j). split_and!; [done|done| |].
    + split; [done|]. intros e He. simpl. apply elem_of_app. by left.
    + exists i, j. split_and!; [done|done|]. simpl. apply elem_of_app. right.
      by apply list_elem_of_singleton.
Qed.

Lemma merge_required_ok (k : string) (g : igraph) (existing_nodes : gset string)
    (dep : string) :
  names_known g existing_nodes → k ∈ node_names g →
  ∃ g' existing_nodes',
    merge_required k (g, existing_nodes) dep = Ok (g', existing_nodes')
    ∧ names_known g' existing_nodes' ∧ extends g g'
    ∧ keeps_vertices (λ _, True) g g' ∧ linked g' k dep.
Proof.
  intros Hknown Hk. unfold merge_required.
  destruct (decide (dep ∉ existing_nodes)) as [Hnew|Hold].
  - set (stub := Vertex dep (Some "") (Some "") (Some [])).
    destruct (connect_ok (add_vertex g stub) ({[dep]} ∪ existing_nodes) k dep)
      as (g' & -> & Hvs & Hext & Hlink).
    { unfold node_names. simpl. rewrite fmap_app, elem_of_app. by left. }
    { unfold node_names. simpl. rewrite fmap_app, elem_of_app. right. by left. }
    exists g', ({[dep]} ∪ existing_nodes). split; [done|]. split.
    { intros n. unfold node_names. rewrite Hvs. by apply (names_known_add g _ stub). }
    split; [apply (extends_trans g (add_vertex g stub) g'); [apply extends_add_vertex|done]|].
    split; [|done].
    intros i v Hv _. rewrite Hvs. by apply (keeps_add_vertex (λ _, True) g stub).
  - apply dec_stable in Hold.
    destruct (connect_ok g existing_nodes k dep) as (g' & -> & Hvs & Hext & Hlink);
      [done|by apply Hknown|].
    exists g', existing_nodes. split; [done|]. split.
    { intros n. unfold node_names. rewrite Hvs. apply Hknown. }
    split; [done|]. split; [|done]. intros i v Hv _. by rewrite Hvs.
Qed.

Lemma merge_required_loop (k : string) (deps : list string) :
  ∀ (g : igraph) (existing_nodes : gset string),
    names_known g existing_nodes → k ∈ node_names g →
    ∃ g' existing_nodes',
      for_each (merge_required k) (g, existing_nodes) deps = Ok (g', existing_nodes')
      ∧ names_known g' existing_nodes' ∧ extends g g'
      ∧ keeps_vertices (λ _, True) g g' ∧ ∀ dep, dep ∈ deps → linked g' k dep.
Proof.
  induction deps as [|dep deps IH]; intros g existing_nodes Hknown Hk.
  - exists g, existing_nodes.
    split_and!; [done|done|apply extends_refl|by intros i v|by intros dep ?%elem_of_nil].
  - destruct (merge_required_ok k g existing_nodes dep)
      as (g1 & ex1 & Hrun & Hknown1 & Hext1 & Hkeep1 & Hlink1); [done..|].
    destruct (IH g1 ex1) as (g' & ex' & Hloop & Hknown' & Hext' & Hkeep' & Hlink');
      [done| |].
    { apply find_name_is_Some. apply find_name_is_Some in Hk as [i Hi].
      exists i. by apply Hext1. }
    exists g', ex'. rewrite for_each_cons, Hrun. split; [exact Hloop|]. split; [done|].
    split; [by apply (extends_trans g g1 g')|].
    split; [by apply (keeps_vertices_trans _ g g1 g')|].
    intros d [->|Hd]%elem_of_cons; [|by apply Hlink'].
    by apply (linked_extends g1 g').
Qed.

(** The first half of the outer loop body: the node of the item is
    created or refreshed. *)
Lemma refresh_ok (g : igraph) (existing_nodes : gset string) (k : string) (d : metadata) :
  names_known g existing_nodes →
  ∃ g1 ex1 i v,
    (if decide (k ∉ existing_nodes) then
       Ok (add_vertex g (set_attributes d (Vertex k None None None)),
           {[k]} ∪ existing_nodes)
     else
       i ← find k g ;
       Ok (Graph (alter (set_attributes d) i (vs g)) (es g), existing_nodes))
    = Ok (g1, ex1)
    ∧ names_known g1 ex1 ∧ extends g g1 ∧ keeps_vertices (λ n, n ≠ k) g g1
    ∧ find_name k (vs g1) = Some i ∧ vs g1 !! i = Some v ∧ set_attributes d v = v.
Proof.
  intros Hknown. destruct (decide (k ∉ existing_nodes)) as [Hnew|Hold].
  - set (v := set_attributes d (Vertex k None None None)).
    exists (add_vertex g v), ({[k]} ∪ existing_nodes), (length (vs g)), v.
    split_and!; [done| | | | | |done].
    + apply (names_known_add g existing_nodes v Hknown).
    + apply extends_add_vertex.
    + apply keeps_add_vertex.
    + apply find_name_snoc_new; [|done]. by rewrite <- (Hknown k).
    + simpl. by apply list_lookup_middle.
  - apply dec_stable in Hold. apply Hknown, find_name_is_Some in Hold as [i Hi].
    destruct (find_name_lookup k (vs g) i Hi) as (v & Hv & Hname).
    assert (name <$> alter (set_attributes d) i (vs g) = name <$> vs g) as Hnames.
    { by apply names_alter. }
    exists (Graph (alter (set_attributes d) i (vs g)) (es g)), existing_nodes, i,
      (set_attributes d v).
    unfold find. rewrite Hi. split_and!; [done| | | | | |done].
    + intros n. rewrite (Hknown n). unfold node_names. simpl. by rewrite Hnames.
    + split; [|done]. intros n j. simpl. by rewrite (find_name_names n _ _ Hnames).
    + intros j w Hw Hne. simpl. rewrite list_lookup_alter_ne; [done|].
      intros <-. congruence.
    + simpl. by rewrite (find_name_names k _ _ Hnames).
    + simpl. by rewrite list_lookup_alter_eq, Hv.
Qed.

Lemma merge_item_ok (g : igraph) (document : list (string * metadata))
    (existing_nodes : gset string) (k : string) (d : metadata) :
  names_known g existing_nodes →
  ∃ g' existing_nodes',
    merge_item (g, document, existing_nodes) (k, d)
    = Ok (g', dict_set document k d, existing_nodes')
    ∧ names_known g' existing_nodes' ∧ extends g g'
    ∧ keeps_vertices (λ n, n ≠ k) g g'
    ∧ absorbed g' (dict_set document k d) (k, d).
Proof.
  intros Hknown. unfold merge_item.
  destruct (refresh_ok g existing_nodes k d Hknown)
    as (g1 & ex1 & i & v & -> & Hknown1 & Hext1 & Hkeep1 & Hi & Hv & Hfix).
  destruct (merge_required_loop k (default [] (required d)) g1 ex1)
    as (g' & ex' & Hloop & Hknown' & Hext' & Hkeep' & Hlink); [done| |].
  { apply find_name_is_Some. eauto. }
  exists g', ex'. cbn. rewrite Hloop. cbn.
  split; [done|]. split; [done|]. split; [by apply (extends_trans g g1 g')|]. split.
  - apply (keeps_vertices_trans _ g g1 g'); [done|].
    by apply (keeps_vertices_weaken (λ _, True)).
  - split; [apply dict_get_set_eq|]. split; [|done].
    exists i, v. split; [by apply Hext'|]. split; [by apply Hkeep'|done].
Qed.

Lemma merge_required_linked (k : string) (g : igraph) (existing_nodes : gset string)
    (dep : string) :
  names_known g existing_nodes → linked g k dep →
  merge_required k (g, existing_nodes) dep = Ok (g, existing_nodes).
Proof.
  intros Hknown (i & j & Hi & Hj & Hij). unfold merge_required.
  assert (dep ∈ existing_nodes) as Hdep by (apply Hknown, find_name_is_Some; eauto).
  destruct (decide (dep ∉ existing_nodes)) as [?|_]; [done|].
  unfold find. rewrite Hi, Hj. cbn. unfold are_connected.
  by rewrite bool_decide_eq_true_2.
Qed.

(** An item that is absorbed is left alone by the loop body. *)
Lemma absorbed_stable (g : igraph) (document : list (string * metadata))
    (existing_nodes : gset string) (item : string * metadata) :
  names_known g existing_nodes →
  absorbed g document item →
  merge_item (g, document, existing_nodes) item = Ok (g, document, existing_nodes).
Proof.
  intros Hknown (Hget & (i & v & Hi & Hv & Hfix) & Hlink).
  destruct item as [k d]. simpl in *. unfold merge_item.
  rewrite (dict_set_id _ _ _ Hget).
  assert (k ∈ existing_nodes) as Hk by (apply Hknown, find_name_is_Some; eauto).
  destruct (decide (k ∉ existing_nodes)) as [?|_]; [done|].
  unfold find. rewrite Hi. cbn. rewrite (alter_fixed _ _ _ _ Hv Hfix).
  assert (for_each (merge_required k) (g, existing_nodes) (default [] (required d))
          = Ok (g, existing_nodes)) as Hloop.
  { induction (default [] (required d)) as [|dep deps IH]; [done|].
    rewrite for_each_cons, merge_required_linked; [|done|apply Hlink; by left].
    apply IH. intros dep' Hdep'. apply Hlink. by right. }
  destruct g as [gvs ges]. simpl in *. rewrite Hloop. done.
Qed.

(** Merging another item does not undo an absorbed one. *)
Lemma absorbed_mono (g g' : igraph) (document : list (string * metadata))
    (item : string * metadata) (k' : string) (d' : metadata) :
  absorbed g document item → item.1 ≠ k' →
  extends g g' → keeps_vertices (λ n, n ≠ k') g g' →
  absorbed g' (dict_set document k' d') item.
Proof.
  intros (Hget & (i & v & Hi & Hv & Hfix) & Hlink) Hne Hext Hkeep. split_and!.
  - rewrite dict_get_set_ne; [done|by intros ->].
  - exists i, v. split_and!; [by apply Hext| |done].
    apply Hkeep; [done|]. apply find_name_lookup in Hi as (v' & Hv' & Hname).
    congruence.
  - intros dep Hdep. eapply linked_extends; [done|]. by apply Hlink.
Qed.

Lemma merge_loop_absorbs (batch : list (string * metadata)) :
  ∀ (g : igraph) (document : list (string * metadata)) (existing_nodes : gset string),
    names_known g existing_nodes → NoDup (dict_keys batch) →
    ∃ g' document' existing_nodes',
      for_each merge_item (g, document, existing_nodes) batch
      = Ok (g', document', existing_nodes')
      ∧ names_known g' existing_nodes'
      ∧ (∀ item, item ∈ batch → absorbed g' document' item)
      ∧ (∀ item, absorbed g document item → item.1 ∉ dict_keys batch →
                 absorbed g' document' item).
Proof.
  unfold dict_keys.
  induction batch as [|[k d] batch IH]; intros g document existing_nodes Hknown Hnd.
  - exists g, document, existing_nodes. split_and!; [done|done| |done].
    by intros item ?%elem_of_nil.
  - rewrite fmap_cons in Hnd. apply NoDup_cons in Hnd as [Hfresh Hnd]. simpl in Hfresh.
    destruct (merge_item_ok g document existing_nodes k d Hknown)
      as (g1 & ex1 & Hrun & Hknown1 & Hext1 & Hkeep1 & Habs1).
    destruct (IH g1 (dict_set document k d) ex1 Hknown1 Hnd)
      as (g' & document' & ex' & Hloop & Hknown' & Hall & Hold).
    exists g', document', ex'. rewrite for_each_cons, Hrun.
    split_and!; [exact Hloop|done| |].
    + intros item [->|Hin]%elem_of_cons; [by apply Hold|by apply Hall].
    + intros item Habs Hnotin. rewrite fmap_cons, not_elem_of_cons in Hnotin.
      destruct Hnotin as [Hne Hnotin]. apply Hold; [|done].
      by apply (absorbed_mono g).
Qed.

Lemma merge_loop_stable (batch : list (string * metadata)) (g : igraph)
    (document : list (string * metadata)) (existing_nodes : gset string) :
  names_known g existing_nodes →
  (∀ item, item ∈ batch → absorbed g document item) →
  for_each merge_item (g, document, existing_nodes) batch
  = Ok (g, document, existing_nodes).
Proof.
  intros Hknown. induction batch as [|item batch IH]; intros Hall; [done|].
  rewrite for_each_cons, absorbed_stable; [|done|apply Hall; by left].
  apply IH. intros item' Hin. apply Hall. by right.
Qed.

Lemma names_known_initial (g : igraph) :
  names_known g (if decide (0 < length (vs g)) then list_to_set (name <$> vs g) else ∅).
Proof.
  intros n. unfold node_names. case_decide as Hlen.
  - by rewrite elem_of_list_to_set.
  - destruct (vs g) as [|v l]; [|simpl in Hlen; lia].
    split; [by intros ?%elem_of_empty|by intros ?%elem_of_nil].
Qed.

(** C6: for every graph object and every batch (a dictionary, so its keys
    are distinct), [update_by_metadata] succeeds, and applying the same
    batch to its result succeeds and gives back that very result: the
    vertices with their attributes, the edges and [mod_data] are all
    unchanged by the second application. *)
Theorem C6_update_by_metadata_idempotent (self : ZomboidModGraph)
    (batch : list (string * metadata)) :
  NoDup (dict_keys batch) →
  ∃ self1,
    update_by_metadata self batch = Ok self1
    ∧ update_by_metadata self1 batch = Ok self1.
Proof.
  intros Hnd. unfold update_by_metadata.
  destruct (merge_loop_absorbs batch (graph self) (mod_data self) _
              (names_known_initial (graph self)) Hnd)
    as (g' & document' & ex' & -> & _ & Hall & _).
  exists (ModGraph g' document'). split; [done|]. cbn.
  by rewrite (merge_loop_stable batch g' document' _ (names_known_initial g') Hall).
Qed.

(** After merging 123, which requires 456, the graph holds the stub 456
    and the edge 123 → 456; the document saved holds 123 only, and the
    graph loaded from it has neither the stub nor the edge. *)
Lemma C7_counterexample : ¬ spec_save_load_roundtrip.
Proof.
  intros H.
  destruct (H stub_batch stub_graph
              (ModGraph (Graph [Vertex "123" (Some "Root")
                 (Some "https://steamcommunity.com/sharedfiles/filedetails/?id=123")
                 (Some ["root"])] []) stub_batch) None) as [Hnodes _];
    [by vm_compute..|].
  destruct (Hnodes "456") as [_ Hin].
  assert ("456" ∈ node_names (graph stub_graph)) as Hstub.
  { apply (bool_decide_unpack _). by vm_compute. }
  apply Hin, (bool_decide_pack _) in Hstub. by vm_compute in Hstub.
Qed.

(** C7 (amended): when [mod_data] is not empty, saving the metadata
    document and loading it alone succeeds and yields the graph rebuilt
    from [mod_data]: the same [mod_data], one node per key of it, and one
    edge per required id that is itself a key. Nodes that are no key of
    [mod_data], such as stubs, and the edges to them are not restored;
    saving and loading the loaded graph again gives it back unchanged. *)
Theorem C7_load_rebuilds_from_metadata (self : ZomboidModGraph)
    (file : option (list (string * metadata))) :
  mod_data self ≠ [] →
  ∃ self',
    load (save self file) = Ok self'
    ∧ mod_data self' = mod_data self
    ∧ node_names (graph self') = dict_keys (mod_data self)
    ∧ edge_names (graph self') = required_pairs (mod_data self)
    ∧ load (save self' file) = Ok self'.
Proof.
  intros Hne.
  destruct (build_from_document (mod_data self)) as (self' & Hb & Hmd & Hn & He).
  assert (∀ s, mod_data s = mod_data self → load (save s file) = Ok self') as Hload.
  { intros s Hs. unfold save. rewrite Hs. destruct (mod_data self); done. }
  exists self'. rewrite !Hload by done. done.
Qed.

Lemma C7_witness :
  ∃ self',
    load (save stub_graph None) = Ok self'
    ∧ mod_data self' = mod_data stub_graph
    ∧ node_names (graph self') = dict_keys (mod_data stub_graph)
    ∧ edge_names (graph self') = required_pairs (mod_data stub_graph)
    ∧ load (save self' None) = Ok self'.
Proof. apply (C7_load_rebuilds_from_metadata stub_graph None). by vm_compute. Defined.

Lemma C6_witness :
  ∃ self1,
    update_by_metadata empty stub_batch = Ok self1
    ∧ update_by_metadata self1 stub_batch = Ok self1.
Proof.
  apply (C6_update_by_metadata_idempotent empty stub_batch).
  apply (bool_decide_unpack _). by vm_compute.
Defined.

End ModGraphFacts.

(** * Properties of the graph queries and of merging *)

Module ModGraphQueries.

Import ModGraph ModGraphFacts.

(** A graph is well formed when its node names are distinct, no edge is
    repeated and every edge joins two existing vertices. *)
Definition well_formed (g : igraph) : Prop :=
  NoDup (node_names g) ∧ NoDup (es g)
  ∧ ∀ e, e ∈ es g → (e.1 < length (vs g))%nat ∧ (e.2 < length (vs g))%nat.

(** The invariant of the loops of [update_by_metadata]: the graph is well
    formed and [existing_nodes] holds its names. *)
Definition sound (st : igraph * gset string) : Prop :=
  well_formed st.1 ∧ names_known st.1 st.2.

(** The name of the vertex at an index. *)
Definition name_at (g : igraph) (idx : nat) : string := default "" (name <$> vs g !! idx).

(** Every edge joins two existing vertices. *)
Definition edges_in_range (g : igraph) : Prop :=
  ∀ e, e ∈ es g → (e.1 < length (vs g))%nat ∧ (e.2 < length (vs g))%nat.

(** A vertex whose mod name equals the identifier up to case. *)
Definition name_matches (identifier : string) (v : vertex) : Prop :=
  ∃ n, v_mod_name v = Some n ∧ lower n = lower identifier.

(** A vertex whose mod name differs from the identifier even up to case. *)
Definition name_differs (identifier : string) (v : vertex) : Prop :=
  ∃ n, v_mod_name v = Some n ∧ lower n ≠ lower identifier.

(** The test of the comprehension [v["mod_name"].lower() == identifier.lower()]
    and the indices it keeps. *)
Definition flag_of (identifier : string) (v : vertex) : bool :=
  bool_decide (lower (default "" (v_mod_name v)) = lower identifier).

Definition flagged (flags : list bool) : list nat :=
  (filter (λ p : nat * bool, p.2 = true) (imap (λ i b, (i, b)) flags)).*1.

(** The graph grew out of [g0]: nodes and edges were only added at the end. *)
Definition grown_from (g0 : igraph) (st : igraph * gset string) : Prop :=
  node_names g0 `prefix_of` node_names st.1 ∧ es g0 `prefix_of` es st.1.

(** The node [update_by_metadata] stores for an item of the batch. *)
Definition node_of (k : string) (d : metadata) : vertex :=
  Vertex k (Some (default "" (mod_name d))) (Some (default "" (url d)))
    (Some (default [] (mod_id d))).

(** Two mods whose titles differ by case only. *)
Definition twin_graph : ZomboidModGraph :=
  ModGraph
    (Graph [Vertex "1" (Some "Hydrocraft") (Some "") (Some []);
            Vertex "2" (Some "HYDROCRAFT") (Some "") (Some [])] [])
    [].

#[export] Instance well_formed_dec (g : igraph) : Decision (well_formed g).
Proof.
  refine (cast_if (decide (NoDup (node_names g) ∧ NoDup (es g)
            ∧ Forall (λ e, (e.1 < length (vs g))%nat ∧ (e.2 < length (vs g))%nat) (es g))));
    unfold well_formed; by rewrite <- Forall_forall.
Defined.

Lemma find_name_lt (n : string) (l : list vertex) (i : nat) :
  find_name n l = Some i → (i < length l)%nat.
Proof.
  intros (v & Hv & _)%find_name_lookup. by apply lookup_lt_Some in Hv.
Qed.

(** With distinct names, a name is found where it stands. *)
Lemma find_name_unique (l : list vertex) (i : nat) (v : vertex) :
  NoDup (name <$> l) → l !! i = Some v → find_name (name v) l = Some i.
Proof.
  intros Hnd Hv.
  assert (is_Some (find_name (name v) l)) as [j Hj].
  { apply find_name_is_Some. apply list_elem_of_fmap. exists v. split; [done|].
    by apply list_elem_of_lookup_2 in Hv. }
  destruct (find_name_lookup _ _ _ Hj) as (w & Hw & Hname).
  rewrite Hj. f_equal. apply (NoDup_lookup (name <$> l) j i (name v)); [done|..].
  - by rewrite list_lookup_fmap, Hw, <- Hname.
  - by rewrite list_lookup_fmap, Hv.
Qed.

(** A loop whose body cannot break [P] cannot break it either. *)
Lemma for_each_preserves {S A : Type} (P : S → Prop) (body : S → A → result S)
    (l : list A) :
  (∀ s a s', a ∈ l → P s → body s a = Ok s' → P s') →
  ∀ s s', P s → for_each body s l = Ok s' → P s'.
Proof.
  induction l as [|a l IH]; intros Hbody s s' Hs Hrun.
  - by injection Hrun as <-.
  - rewrite for_each_cons in Hrun. destruct (body s a) as [s1|e] eqn:Hs1; [|done].
    apply (IH (λ s a s', Hbody s a s' ∘ list_elem_of_further _ _ _) s1 s'); [|done].
    apply (Hbody s a); [by left|done..].
Qed.


Lemma well_formed_add_vertex (g : igraph) (v : vertex) :
  well_formed g → name v ∉ node_names g → well_formed (add_vertex g v).
Proof.
  intros (Hn & He & Hr) Hnew. split; [|split; [done|]].
  - unfold node_names. simpl. rewrite fmap_app. apply NoDup_app. split; [done|].
    split; [|apply NoDup_singleton].
    intros n Hin ->%list_elem_of_singleton. done.
  - intros e Hin. simpl. rewrite length_app. destruct (Hr e Hin). simpl. lia.
Qed.

Lemma well_formed_add_edge (g : igraph) (i j : nat) :
  well_formed g → (i, j) ∉ es g → (i < length (vs g))%nat → (j < length (vs g))%nat →
  well_formed (add_edge g i j).
Proof.
  intros (Hn & He & Hr) Hnew Hi Hj. split; [done|]. split.
  - simpl. apply NoDup_app. split; [done|]. split; [|apply NoDup_singleton].
    intros e Hin ->%list_elem_of_singleton. done.
  - intros e [Hin| ->%list_elem_of_singleton]%elem_of_app; [by apply Hr|done].
Qed.

Lemma merge_required_sound (k : string) (st st' : igraph * gset string) (dep : string) :
  sound st → merge_required k st dep = Ok st' → sound st'.
Proof.
  destruct st as [g ex]. intros [Hwf Hknown]. unfold merge_required.
  set (st1 := if decide (dep ∉ ex) then _ else _).
  assert (sound st1) as Hsound1.
  { unfold st1. case_decide as Hnew; [|done]. split; simpl.
    - apply well_formed_add_vertex; [done|]. simpl. by rewrite <- (Hknown dep).
    - apply (names_known_add g ex (Vertex dep (Some "") (Some "") (Some [])) Hknown). }
  destruct st1 as [g1 ex1]. destruct Hsound1 as [Hwf1 Hknown1]. simpl in *.
  unfold find. destruct (find_name k (vs g1)) as [i|] eqn:Hi; [|done].
  destruct (find_name dep (vs g1)) as [j|] eqn:Hj; [|done]. cbn.
  unfold are_connected. case_bool_decide as Hc; intros [= <-]; [done|].
  split; [|done]. simpl.
  apply well_formed_add_edge; [done|done|by eapply find_name_lt..].
Qed.

Lemma merge_item_sound (g g' : igraph) (document document' : list (string * metadata))
    (ex ex' : gset string) (item : string * metadata) :
  sound (g, ex) → merge_item (g, document, ex) item = Ok (g', document', ex') →
  sound (g', ex').
Proof.
  destruct item as [k d]. intros [Hwf Hknown]. unfold merge_item.
  set (r := if decide (k ∉ ex) then _ else _).
  assert (∀ st1, r = Ok st1 → sound st1) as Hsound1.
  { unfold r. intros st1. case_decide as Hnew.
    - intros [= <-]. split; simpl.
      + apply well_formed_add_vertex; [done|]. simpl. by rewrite <- (Hknown k).
      + apply (names_known_add g ex
                 (set_attributes d (Vertex k None None None)) Hknown).
    - unfold find. destruct (find_name k (vs g)) as [i|] eqn:Hi; [|done]. cbn.
      intros [= <-].
      destruct (find_name_lookup k (vs g) i Hi) as (v & Hv & Hname).
      assert (name <$> alter (set_attributes d) i (vs g) = name <$> vs g) as Hnames.
      { by apply names_alter. }
      destruct Hwf as (Hn & He & Hr). split; [split; [|split]|]; simpl.
      + unfold node_names. simpl. by rewrite Hnames.
      + done.
      + intros e Hin. rewrite length_alter. by apply Hr.
      + intros n. rewrite (Hknown n). unfold node_names. simpl. by rewrite Hnames. }
  destruct r as [st1|e]; [|done]. cbn.
  destruct (for_each (merge_required k) st1 (default [] (required d)))
    as [st2|e] eqn:Hloop; [|done]. cbn. intros [= <- _ <-].
  destruct st2 as [g2 ex2].
  apply (for_each_preserves sound (merge_required k) (default [] (required d))
           (λ s a s' _, merge_required_sound k s s' a) st1 (g2, ex2)); [|done].
  by apply Hsound1.
Qed.

Lemma update_keeps_well_formed (self self1 : ZomboidModGraph)
    (batch : list (string * metadata)) :
  well_formed (graph self) →
  update_by_metadata self batch = Ok self1 →
  well_formed (graph self1).
Proof.
  intros Hwf. unfold update_by_metadata.
  set (ex := if decide (0 < length (vs (graph self))) then _ else _).
  destruct (for_each merge_item (graph self, mod_data self, ex) batch)
    as [[[g1 d1] ex1]|e] eqn:Hloop; [|done]. cbn. intros [= <-]. simpl.
  apply (for_each_preserves (λ st, sound (st.1.1, st.2)) merge_item batch) in Hloop.
  - by destruct Hloop.
  - intros [[ga da] xa] item [[gb db] xb] _. simpl. apply merge_item_sound.
  - split; [done|]. apply names_known_initial.
Qed.




Lemma names_of_indices (g : igraph) (l : list nat) :
  (∀ idx, idx ∈ l → (idx < length (vs g))%nat) →
  mapM (λ idx, expect IndexError (name <$> vs g !! idx)) l = Ok (name_at g <$> l).
Proof.
  induction l as [|idx l IH]; intros Hr; [done|].
  change (mapM ?f (idx :: l)) with (y ← f idx ; k ← mapM f l ; mret (y :: k)).
  rewrite IH by (intros i Hi; apply Hr; by right).
  destruct (lookup_lt_is_Some_2 (vs g) idx) as [v Hv]; [apply Hr; by left|].
  assert (name_at g idx = name v) as Hn by (unfold name_at; by rewrite Hv).
  rewrite fmap_cons, Hn, Hv. reflexivity.
Qed.

Lemma match_identifier_by_id (self : ZomboidModGraph) (identifier : string) (i : nat) :
  find_name identifier (vs (graph self)) = Some i →
  match_identifier self identifier = Ok i.
Proof.
  intros Hi. unfold match_identifier.
  destruct (decide (vs (graph self) = [])) as [Hnil|_]; [by rewrite Hnil in Hi|].
  rewrite decide_True by (apply find_name_is_Some; eauto).
  unfold find. by rewrite Hi.
Qed.

Lemma get_dependents_by_id (self : ZomboidModGraph) (identifier : string) (j : nat) :
  edges_in_range (graph self) →
  find_name identifier (vs (graph self)) = Some j →
  get_dependents self identifier
  = Ok (name_at (graph self) <$> predecessors (graph self) j).
Proof.
  intros Hr Hj. unfold get_dependents. rewrite (match_identifier_by_id _ _ j Hj). cbn.
  apply names_of_indices. intros idx Hin. unfold predecessors in Hin.
  apply list_elem_of_fmap in Hin as ([s t] & -> & [_ Hin]%list_elem_of_filter).
  by destruct (Hr _ Hin).
Qed.

Lemma get_dependencies_by_id (self : ZomboidModGraph) (identifier : string) (i : nat) :
  edges_in_range (graph self) →
  find_name identifier (vs (graph self)) = Some i →
  get_dependencies self identifier
  = Ok (name_at (graph self) <$> successors (graph self) i).
Proof.
  intros Hr Hi. unfold get_dependencies. rewrite (match_identifier_by_id _ _ i Hi). cbn.
  apply names_of_indices. intros idx Hin. unfold successors in Hin.
  apply list_elem_of_fmap in Hin as ([s t] & -> & [_ Hin]%list_elem_of_filter).
  by destruct (Hr _ Hin).
Qed.

Lemma elem_of_predecessors (g : igraph) (i j : nat) :
  i ∈ predecessors g j ↔ (i, j) ∈ es g.
Proof.
  unfold predecessors. rewrite list_elem_of_fmap. split.
  - intros ([s t] & -> & [Ht Hin]%list_elem_of_filter). simpl in *. by subst t.
  - intros Hin. exists (i, j). split; [done|]. by apply list_elem_of_filter.
Qed.

Lemma elem_of_successors (g : igraph) (i j : nat) :
  j ∈ successors g i ↔ (i, j) ∈ es g.
Proof.
  unfold successors. rewrite list_elem_of_fmap. split.
  - intros ([s t] & -> & [Hs Hin]%list_elem_of_filter). simpl in *. by subst s.
  - intros Hin. exists (i, j). split; [done|]. by apply list_elem_of_filter.
Qed.

Lemma name_at_find (g : igraph) (n : string) (i : nat) :
  find_name n (vs g) = Some i → name_at g i = n.
Proof.
  intros (v & Hv & Hn)%find_name_lookup. unfold name_at. by rewrite Hv.
Qed.

Lemma name_at_inj (g : igraph) (i j : nat) :
  NoDup (node_names g) → (i < length (vs g))%nat → (j < length (vs g))%nat →
  name_at g i = name_at g j → i = j.
Proof.
  intros Hnd Hi Hj. unfold name_at.
  destruct (lookup_lt_is_Some_2 _ _ Hi) as [v Hv], (lookup_lt_is_Some_2 _ _ Hj) as [w Hw].
  rewrite Hv, Hw. simpl. intros Hname.
  apply (NoDup_lookup (node_names g) i j (name v)); [done|..]; unfold node_names.
  - by rewrite list_lookup_fmap, Hv.
  - by rewrite list_lookup_fmap, Hw, Hname.
Qed.

(** X4: in a well-formed graph, for two node ids [a] and [b], both
    queries succeed, and [a] is among the dependents of [b] exactly when
    [b] is among the dependencies of [a]. *)
Theorem X4_dependents_dependencies_dual (self : ZomboidModGraph) (a b : string) :
  well_formed (graph self) →
  a ∈ node_names (graph self) → b ∈ node_names (graph self) →
  ∃ dependents dependencies,
    get_dependents self b = Ok dependents
    ∧ get_dependencies self a = Ok dependencies
    ∧ (a ∈ dependents ↔ b ∈ dependencies).
Proof.
  intros (Hnd & _ & Hr) [ia Ha]%find_name_is_Some [ib Hb]%find_name_is_Some.
  exists (name_at (graph self) <$> predecessors (graph self) ib),
    (name_at (graph self) <$> successors (graph self) ia).
  split; [by apply get_dependents_by_id|]. split; [by apply get_dependencies_by_id|].
  pose proof (find_name_lt _ _ _ Ha) as Hia. pose proof (find_name_lt _ _ _ Hb) as Hib.
  rewrite !list_elem_of_fmap. split.
  - intros (s & Hs & Hin). apply elem_of_predecessors in Hin.
    assert (s = ia) as ->.
    { apply (name_at_inj (graph self)); [done|by destruct (Hr _ Hin)|done|].
      by rewrite <- Hs, (name_at_find _ _ _ Ha). }
    exists ib. split; [by rewrite (name_at_find _ _ _ Hb)|]. by apply elem_of_successors.
  - intros (t & Ht & Hin). apply elem_of_successors in Hin.
    assert (t = ib) as ->.
    { apply (name_at_inj (graph self)); [done|by destruct (Hr _ Hin)|done|].
      by rewrite <- Ht, (name_at_find _ _ _ Hb). }
    exists ia. split; [by rewrite (name_at_find _ _ _ Ha)|]. by apply elem_of_predecessors.
Qed.





Lemma flags_of_named (identifier : string) (l : list vertex) :
  Forall (λ v, is_Some (v_mod_name v)) l →
  mapM (λ v, n ← expect AttributeError (v_mod_name v) ;
             Ok (bool_decide (lower n = lower identifier))) l
  = Ok (flag_of identifier <$> l).
Proof.
  induction 1 as [|v l [n Hn] _ IH]; [done|].
  change (mapM ?f (v :: l)) with (y ← f v ; k ← mapM f l ; mret (y :: k)).
  rewrite IH, Hn, fmap_cons. unfold flag_of at 2. rewrite Hn. reflexivity.
Qed.

Lemma imap_shift (flags : list bool) (k : nat) :
  imap ((λ i b, ((k + i)%nat, b)) ∘ S) flags = imap (λ i b, ((S k + i)%nat, b)) flags.
Proof. apply imap_ext. intros i x _. simpl. f_equal. lia. Qed.

Lemma elem_of_flagged (flags : list bool) (k j : nat) :
  j ∈ (filter (λ p : nat * bool, p.2 = true) (imap (λ i b, ((k + i)%nat, b)) flags)).*1
  ↔ ∃ i, j = (k + i)%nat ∧ flags !! i = Some true.
Proof.
  revert k j. induction flags as [|b flags IH]; intros k j.
  - split; [by intros ?%elem_of_nil|by intros (i & _ & ?)].
  - rewrite imap_cons, imap_shift. destruct b.
    + rewrite filter_cons_True by done. rewrite fmap_cons, elem_of_cons, (IH (S k)).
      cbn [fst]. split.
      * intros [->|(i & -> & Hi)]; [by exists 0%nat|exists (S i); split; [lia|done]].
      * intros ([|i] & -> & Hi); [by left|right; exists i; split; [lia|done]].
    + rewrite filter_cons_False by (by intros ?). rewrite (IH (S k)). split.
      * intros (i & -> & Hi). exists (S i). split; [lia|done].
      * intros ([|i] & -> & Hi); [done|exists i; split; [lia|done]].
Qed.

Lemma NoDup_flagged (flags : list bool) (k : nat) :
  NoDup (filter (λ p : nat * bool, p.2 = true) (imap (λ i b, ((k + i)%nat, b)) flags)).*1.
Proof.
  revert k. induction flags as [|b flags IH]; intros k; [apply NoDup_nil_2|].
  rewrite imap_cons, imap_shift. destruct b.
  - rewrite filter_cons_True by done. rewrite fmap_cons. apply NoDup_cons.
    split; [|apply (IH (S k))].
    cbn [fst]. intros (i & Hi & _)%elem_of_flagged. lia.
  - rewrite filter_cons_False by (by intros ?). apply (IH (S k)).
Qed.


Lemma elem_of_flagged_0 (flags : list bool) (j : nat) :
  j ∈ flagged flags ↔ flags !! j = Some true.
Proof.
  unfold flagged. rewrite (elem_of_flagged flags 0 j). split.
  - by intros (i & -> & Hi).
  - intros Hj. by exists j.
Qed.

Lemma flag_of_lookup (identifier : string) (l : list vertex) (i : nat) :
  Forall (λ v, is_Some (v_mod_name v)) l →
  (flag_of identifier <$> l) !! i = Some true
  ↔ ∃ v, l !! i = Some v ∧ name_matches identifier v.
Proof.
  intros Hall. rewrite list_lookup_fmap. split.
  - destruct (l !! i) as [v|] eqn:Hv; [|done]. simpl. intros [= Hflag].
    exists v. split; [done|]. unfold flag_of in Hflag.
    apply bool_decide_eq_true in Hflag.
    rewrite Forall_lookup in Hall. destruct (Hall i v Hv) as [n Hn].
    exists n. split; [done|]. by rewrite Hn in Hflag.
  - intros (v & -> & n & Hn & Hlow). simpl. f_equal. unfold flag_of.
    apply bool_decide_eq_true. by rewrite Hn.
Qed.

(** What the lookup by name does once the identifier is no node id. *)
Lemma match_identifier_by_name (self : ZomboidModGraph) (identifier : string) :
  vs (graph self) ≠ [] →
  identifier ∉ node_names (graph self) →
  Forall (λ v, is_Some (v_mod_name v)) (vs (graph self)) →
  match_identifier self identifier
  = match flagged (flag_of identifier <$> vs (graph self)) with
    | [i] => Ok i
    | [] => Raise (ValueError "No mod found with name or ID")
    | _ => Raise (ValueError "Ambiguous mod name; multiple mods matched.")
    end.
Proof.
  intros Hne Hid Hall. unfold match_identifier.
  rewrite decide_False by done. rewrite decide_False by done.
  by rewrite flags_of_named.
Qed.


Lemma two_flagged (flags : list bool) (i j : nat) :
  i ≠ j → i ∈ flagged flags → j ∈ flagged flags →
  ∃ a b rest, flagged flags = a :: b :: rest.
Proof.
  intros Hne Hi Hj. destruct (flagged flags) as [|a [|b rest]]; [|exfalso|by eauto].
  - by apply elem_of_nil in Hi.
  - apply list_elem_of_singleton in Hi, Hj. congruence.
Qed.

Lemma one_flagged (flags : list bool) (i : nat) :
  i ∈ flagged flags → (∀ j, j ∈ flagged flags → j = i) → flagged flags = [i].
Proof.
  intros Hi Honly. pose proof (NoDup_flagged flags 0) as Hnd.
  change (NoDup (flagged flags)) in Hnd.
  destruct (flagged flags) as [|a [|b rest]].
  - by apply elem_of_nil in Hi.
  - apply list_elem_of_singleton in Hi. by subst.
  - exfalso. apply NoDup_cons in Hnd as [Hab _]. apply Hab.
    rewrite (Honly a) by (by left). rewrite (Honly b) by (right; by left). by left.
Qed.

(** X6: when the identifier is no node id and two different vertices
    carry a mod name equal to it up to case, both queries raise the
    [ValueError] of an ambiguous name. *)
Theorem X6_lookup_by_name_ambiguous (self : ZomboidModGraph) (identifier : string)
    (i j : nat) (v w : vertex) :
  identifier ∉ node_names (graph self) →
  Forall (λ v, is_Some (v_mod_name v)) (vs (graph self)) →
  i ≠ j →
  vs (graph self) !! i = Some v → name_matches identifier v →
  vs (graph self) !! j = Some w → name_matches identifier w →
  get_dependents self identifier
  = Raise (ValueError "Ambiguous mod name; multiple mods matched.")
  ∧ get_dependencies self identifier
    = Raise (ValueError "Ambiguous mod name; multiple mods matched.").
Proof.
  intros Hid Hall Hne Hv Hmv Hw Hmw.
  assert (match_identifier self identifier
          = Raise (ValueError "Ambiguous mod name; multiple mods matched.")) as Hm.
  { rewrite match_identifier_by_name; [|by intros E; rewrite E in Hv|done..].
    destruct (two_flagged (flag_of identifier <$> vs (graph self)) i j)
      as (a & b & rest & ->); [done|..|done];
      apply elem_of_flagged_0, flag_of_lookup; eauto. }
  unfold get_dependents, get_dependencies. by rewrite Hm.
Qed.

(** X7: on a graph with at least one vertex, an identifier that is no
    node id and that no mod name equals up to case makes both queries
    raise the [ValueError] of an unknown mod. *)
Theorem X7_lookup_not_found (self : ZomboidModGraph) (identifier : string) :
  vs (graph self) ≠ [] →
  identifier ∉ node_names (graph self) →
  Forall (name_differs identifier) (vs (graph self)) →
  get_dependents self identifier = Raise (ValueError "No mod found with name or ID")
  ∧ get_dependencies self identifier = Raise (ValueError "No mod found with name or ID").
Proof.
  intros Hne Hid Hdiff.
  assert (Forall (λ v, is_Some (v_mod_name v)) (vs (graph self))) as Hall.
  { eapply Forall_impl; [done|]. intros v (n & Hn & _). eauto. }
  assert (match_identifier self identifier
          = Raise (ValueError "No mod found with name or ID")) as Hm.
  { rewrite match_identifier_by_name by done.
    destruct (flagged _) as [|a rest] eqn:Hf; [done|]. exfalso.
    assert (a ∈ flagged (flag_of identifier <$> vs (graph self))) as Ha
      by (rewrite Hf; by left).
    apply elem_of_flagged_0, flag_of_lookup in Ha as (v & Hv & n & Hn & Hlow); [|done].
    rewrite Forall_lookup in Hdiff. destruct (Hdiff a v Hv) as (n' & Hn' & Hlow').
    congruence. }
  unfold get_dependents, get_dependencies. by rewrite Hm.
Qed.

(** X8: with distinct node ids, an identifier that is no node id and
    that equals, up to case, the mod name of exactly one vertex is
    answered as the node id of that vertex is, by both queries. *)
Theorem X8_lookup_by_unique_name (self : ZomboidModGraph) (identifier : string)
    (i : nat) (v : vertex) :
  NoDup (node_names (graph self)) →
  identifier ∉ node_names (graph self) →
  Forall (λ v, is_Some (v_mod_name v)) (vs (graph self)) →
  vs (graph self) !! i = Some v → name_matches identifier v →
  (∀ j w, vs (graph self) !! j = Some w → name_matches identifier w → j = i) →
  get_dependents self identifier = get_dependents self (name v)
  ∧ get_dependencies self identifier = get_dependencies self (name v).
Proof.
  intros Hnd Hid Hall Hv Hmv Honly.
  assert (match_identifier self identifier = match_identifier self (name v)) as Hm.
  { rewrite (match_identifier_by_id self (name v) i) by (by apply find_name_unique).
    rewrite match_identifier_by_name; [|by intros E; rewrite E in Hv|done..].
    rewrite (one_flagged _ i); [done|..].
    - apply elem_of_flagged_0, flag_of_lookup; eauto.
    - intros j (w & Hw & Hmw)%elem_of_flagged_0%flag_of_lookup; [|done]. eauto. }
  unfold get_dependents, get_dependencies. by rewrite Hm.
Qed.

(** X9: two identifiers that are equal up to case and that are no node
    ids get the same answer from both queries: whenever one of them is
    answered with a list, so is the other, with the same list. *)
Theorem X9_lookup_by_name_ignores_case (self : ZomboidModGraph) (x y : string)
    (l : list string) :
  lower x = lower y →
  x ∉ node_names (graph self) → y ∉ node_names (graph self) →
  (get_dependents self x = Ok l ↔ get_dependents self y = Ok l)
  ∧ (get_dependencies self x = Ok l ↔ get_dependencies self y = Ok l).
Proof.
  intros Hlow Hx Hy.
  assert (match_identifier self x = match_identifier self y) as Hm.
  { unfold match_identifier. case_decide; [done|]. rewrite !decide_False by done.
    by rewrite Hlow. }
  unfold get_dependents, get_dependencies. by rewrite Hm.
Qed.



Lemma merge_required_grows (g0 : igraph) (k : string) (st st' : igraph * gset string)
    (dep : string) :
  grown_from g0 st → merge_required k st dep = Ok st' → grown_from g0 st'.
Proof.
  destruct st as [g ex]. intros [Hn He]. unfold merge_required.
  set (st1 := if decide (dep ∉ ex) then _ else _).
  assert (grown_from g0 st1) as Hgrown1.
  { unfold st1. case_decide; [|done]. split; [|done]. simpl.
    unfold node_names, add_vertex. simpl. rewrite fmap_app.
    by apply prefix_app_r. }
  destruct st1 as [g1 ex1]. destruct Hgrown1 as [Hn1 He1]. simpl in *.
  destruct (find k g1) as [i|]; [|done]. destruct (find dep g1) as [j|]; [|done]. cbn.
  destruct (are_connected g1 i j); intros [= <-]; [done|].
  split; [done|]. simpl. by apply prefix_app_r.
Qed.

Lemma merge_item_grows (g0 g g' : igraph) (document document' : list (string * metadata))
    (ex ex' : gset string) (item : string * metadata) :
  grown_from g0 (g, ex) → merge_item (g, document, ex) item = Ok (g', document', ex') →
  grown_from g0 (g', ex').
Proof.
  destruct item as [k d]. intros [Hn He]. unfold merge_item.
  set (r := if decide (k ∉ ex) then _ else _).
  assert (∀ st1, r = Ok st1 → grown_from g0 st1) as Hgrown1.
  { unfold r. intros st1. case_decide.
    - intros [= <-]. split; [|done]. simpl. unfold node_names, add_vertex. simpl.
      rewrite fmap_app. by apply prefix_app_r.
    - destruct (find k g) as [i|]; [|done]. cbn. intros [= <-]. split; [|done]. simpl.
      unfold node_names. simpl. by rewrite names_alter. }
  destruct r as [st1|e]; [|done]. cbn.
  destruct (for_each (merge_required k) st1 (default [] (required d)))
    as [st2|e] eqn:Hloop; [|done]. cbn. intros [= <- _ <-].
  destruct st2 as [g2 ex2].
  apply (for_each_preserves (grown_from g0) (merge_required k) (default [] (required d))
           (λ s a s' _, merge_required_grows g0 k s s' a) st1 (g2, ex2)); [|done].
  by apply Hgrown1.
Qed.

Lemma merge_loop_frame (batch : list (string * metadata)) :
  ∀ (g : igraph) (document : list (string * metadata)) (ex : gset string),
    names_known g ex →
    ∃ g' document' ex',
      for_each merge_item (g, document, ex) batch = Ok (g', document', ex')
      ∧ names_known g' ex'
      ∧ (∀ k, k ∉ dict_keys batch → dict_get document' k = dict_get document k)
      ∧ keeps_vertices (λ n, n ∉ dict_keys batch) g g'.
Proof.
  unfold dict_keys.
  induction batch as [|[k d] batch IH]; intros g document ex Hknown.
  - exists g, document, ex. split; [done|]. split; [done|]. split; [done|]. by intros i v.
  - destruct (merge_item_ok g document ex k d Hknown)
      as (g1 & ex1 & Hrun & Hknown1 & _ & Hkeep1 & _).
    destruct (IH g1 (dict_set document k d) ex1 Hknown1)
      as (g' & document' & ex' & Hloop & Hknown' & Hdoc & Hkeep).
    exists g', document', ex'. rewrite for_each_cons, Hrun.
    split; [exact Hloop|]. split; [done|]. split.
    + intros k' [Hne Hnotin]%not_elem_of_cons. simpl in Hne.
      rewrite Hdoc by done. by apply dict_get_set_ne.
    + intros i v Hv [Hne Hnotin]%not_elem_of_cons. simpl in Hne.
      apply Hkeep; [|done]. by apply Hkeep1.
Qed.

(** X2: [update_by_metadata] always succeeds and only adds to the graph:
    the nodes and the edges of before are a prefix of those of after, a
    vertex whose id is no key of the batch keeps its index and its
    attributes, and [mod_data] is unchanged at every key that is no key of
    the batch. *)
Theorem X2_update_by_metadata_only_grows (self : ZomboidModGraph)
    (batch : list (string * metadata)) :
  ∃ self1,
    update_by_metadata self batch = Ok self1
    ∧ node_names (graph self) `prefix_of` node_names (graph self1)
    ∧ es (graph self) `prefix_of` es (graph self1)
    ∧ (∀ i v, vs (graph self) !! i = Some v → name v ∉ dict_keys batch →
              vs (graph self1) !! i = Some v)
    ∧ (∀ k, k ∉ dict_keys batch →
            dict_get (mod_data self1) k = dict_get (mod_data self) k).
Proof.
  unfold update_by_metadata.
  set (ex := if decide (0 < length (vs (graph self))) then _ else _).
  destruct (merge_loop_frame batch (graph self) (mod_data self) ex
              (names_known_initial (graph self)))
    as (g' & document' & ex' & Hloop & _ & Hdoc & Hkeep).
  exists (ModGraph g' document'). rewrite Hloop. split; [done|]. simpl.
  assert (grown_from (graph self) (g', ex')) as [Hn He].
  { apply (for_each_preserves (λ st, grown_from (graph self) (st.1.1, st.2))
             merge_item batch) in Hloop; [done| |done].
    intros [[ga da] xa] item [[gb db] xb] _. simpl. apply merge_item_grows. }
  done.
Qed.


Lemma linked_edge_names (g : igraph) (k dep : string) :
  linked g k dep → dep ∈ node_names g ∧ (Some k, Some dep) ∈ edge_names g.
Proof.
  intros (i & j & Hi & Hj & Hij). split; [apply find_name_is_Some; eauto|].
  unfold edge_names. apply list_elem_of_fmap. exists (i, j). split; [|done]. simpl.
  destruct (find_name_lookup _ _ _ Hi) as (v & -> & <-).
  destruct (find_name_lookup _ _ _ Hj) as (w & -> & <-). done.
Qed.

(** X3: after [update_by_metadata] with a batch of distinct keys, every
    item [(k, d)] of the batch is stored: [mod_data] maps [k] to [d], the
    node [k] carries the title, URL and internal ids of [d] (empty when
    [d] lacks them), and every required id of [d] is a node with an edge
    from [k] to it. *)
Theorem X3_update_by_metadata_stores_batch (self self1 : ZomboidModGraph)
    (batch : list (string * metadata)) (k : string) (d : metadata) :
  NoDup (dict_keys batch) → (k, d) ∈ batch →
  update_by_metadata self batch = Ok self1 →
  dict_get (mod_data self1) k = Some d
  ∧ (∃ i, find_name k (vs (graph self1)) = Some i
          ∧ vs (graph self1) !! i = Some (node_of k d))
  ∧ ∀ dep, dep ∈ default [] (required d) →
      dep ∈ node_names (graph self1) ∧ (Some k, Some dep) ∈ edge_names (graph self1).
Proof.
  intros Hnd Hin. unfold update_by_metadata.
  destruct (merge_loop_absorbs batch (graph self) (mod_data self) _
              (names_known_initial (graph self)) Hnd)
    as (g' & document' & ex' & -> & _ & Hall & _).
  cbn. intros [= <-]. simpl.
  destruct (Hall (k, d) Hin) as (Hget & (i & v & Hi & Hv & Hfix) & Hlink). simpl in *.
  split; [done|]. split.
  - exists i. split; [done|]. rewrite Hv. f_equal. rewrite <- Hfix.
    destruct (find_name_lookup _ _ _ Hi) as (v' & Hv' & Hname).
    rewrite Hv in Hv'. injection Hv' as <-. unfold set_attributes, node_of. by rewrite Hname.
  - intros dep Hdep. by apply linked_edge_names, Hlink.
Qed.

Lemma merged_requirement_queryable (self self1 : ZomboidModGraph)
    (batch : list (string * metadata)) (k dep : string) (d : metadata) :
  well_formed (graph self) →
  NoDup (dict_keys batch) → (k, d) ∈ batch → dep ∈ default [] (required d) →
  update_by_metadata self batch = Ok self1 →
  ∃ dependents dependencies,
    get_dependents self1 dep = Ok dependents ∧ k ∈ dependents
    ∧ get_dependencies self1 k = Ok dependencies ∧ dep ∈ dependencies.
Proof.
  intros Hwf Hnd Hin Hdep Hrun.
  destruct (update_keeps_well_formed self self1 batch Hwf Hrun) as (_ & _ & Hr).
  revert Hrun. unfold update_by_metadata.
  destruct (merge_loop_absorbs batch (graph self) (mod_data self) _
              (names_known_initial (graph self)) Hnd)
    as (g' & document' & ex' & -> & _ & Hall & _).
  cbn. intros [= <-]. simpl in *.
  destruct (Hall (k, d) Hin) as (_ & _ & Hlink).
  destruct (Hlink dep Hdep) as (i & j & Hi & Hj & Hij). simpl in *.
  exists (name_at g' <$> predecessors g' j), (name_at g' <$> successors g' i).
  split; [by apply (get_dependents_by_id (ModGraph g' document'))|]. split.
  { apply list_elem_of_fmap. exists i. split; [by rewrite (name_at_find _ _ _ Hi)|].
    by apply elem_of_predecessors. }
  split; [by apply (get_dependencies_by_id (ModGraph g' document'))|].
  apply list_elem_of_fmap. exists j. split; [by rewrite (name_at_find _ _ _ Hj)|].
  by apply elem_of_successors.
Qed.


(** X1: [update_by_metadata] keeps a graph well formed: after it the node
    ids are still distinct, no edge is repeated and every edge joins two
    existing vertices. *)
Theorem X1_update_by_metadata_keeps_well_formed (self self1 : ZomboidModGraph)
    (batch : list (string * metadata)) :
  well_formed (graph self) →
  update_by_metadata self batch = Ok self1 →
  well_formed (graph self1).
Proof. apply update_keeps_well_formed. Qed.

(** X5: after merging, into a well-formed graph, a batch of distinct keys
    in which [k] requires [dep], the two queries see the requirement:
    [get_dependents] of [dep] succeeds and lists [k], and
    [get_dependencies] of [k] succeeds and lists [dep]. *)
Theorem X5_merged_requirement_is_queryable (self self1 : ZomboidModGraph)
    (batch : list (string * metadata)) (k dep : string) (d : metadata) :
  well_formed (graph self) →
  NoDup (dict_keys batch) → (k, d) ∈ batch → dep ∈ default [] (required d) →
  update_by_metadata self batch = Ok self1 →
  ∃ dependents dependencies,
    get_dependents self1 dep = Ok dependents ∧ k ∈ dependents
    ∧ get_dependencies self1 k = Ok dependencies ∧ dep ∈ dependencies.
Proof. apply merged_requirement_queryable. Qed.

Lemma X1_witness : well_formed (graph stub_graph).
Proof.
  apply (X1_update_by_metadata_keeps_well_formed empty stub_graph stub_batch).
  - apply (bool_decide_unpack _). by vm_compute.
  - by vm_compute.
Defined.

Lemma X3_witness :
  dict_get (mod_data stub_graph) "123"
  = Some (Metadata (Some "https://steamcommunity.com/sharedfiles/filedetails/?id=123")
            (Some "Root") (Some "123") (Some ["root"]) (Some ["456"]))
  ∧ (∃ i, find_name "123" (vs (graph stub_graph)) = Some i
          ∧ vs (graph stub_graph) !! i
            = Some (node_of "123"
                      (Metadata
                         (Some "https://steamcommunity.com/sharedfiles/filedetails/?id=123")
                         (Some "Root") (Some "123") (Some ["root"]) (Some ["456"]))))
  ∧ ∀ dep, dep ∈ ["456"] →
      dep ∈ node_names (graph stub_graph)
      ∧ (Some "123", Some dep) ∈ edge_names (graph stub_graph).
Proof.
  apply (X3_update_by_metadata_stores_batch empty stub_graph stub_batch "123").
  - apply (bool_decide_unpack _). by vm_compute.
  - apply (bool_decide_unpack _). by vm_compute.
  - by vm_compute.
Defined.

Lemma X4_witness :
  ∃ dependents dependencies,
    get_dependents stub_graph "456" = Ok dependents
    ∧ get_dependencies stub_graph "123" = Ok dependencies
    ∧ ("123" ∈ dependents ↔ "456" ∈ dependencies).
Proof.
  apply (X4_dependents_dependencies_dual stub_graph "123" "456");
    apply (bool_decide_unpack _); by vm_compute.
Defined.

Lemma X5_witness :
  ∃ dependents dependencies,
    get_dependents stub_graph "456" = Ok dependents ∧ "123" ∈ dependents
    ∧ get_dependencies stub_graph "123" = Ok dependencies ∧ "456" ∈ dependencies.
Proof.
  apply (X5_merged_requirement_is_queryable empty stub_graph stub_batch "123" "456"
           (Metadata (Some "https://steamcommunity.com/sharedfiles/filedetails/?id=123")
              (Some "Root") (Some "123") (Some ["root"]) (Some ["456"]))).
  - apply (bool_decide_unpack _). by vm_compute.
  - apply (bool_decide_unpack _). by vm_compute.
  - apply (bool_decide_unpack _). by vm_compute.
  - apply (bool_decide_unpack _). by vm_compute.
  - by vm_compute.
Defined.

Lemma X6_witness :
  get_dependents twin_graph "hydrocraft"
  = Raise (ValueError "Ambiguous mod name; multiple mods matched.")
  ∧ get_dependencies twin_graph "hydrocraft"
    = Raise (ValueError "Ambiguous mod name; multiple mods matched.").
Proof.
  apply (X6_lookup_by_name_ambiguous twin_graph "hydrocraft" 0 1
           (Vertex "1" (Some "Hydrocraft") (Some "") (Some []))
           (Vertex "2" (Some "HYDROCRAFT") (Some "") (Some []))).
  - apply (bool_decide_unpack _). by vm_compute.
  - repeat constructor; by eexists.
  - lia.
  - reflexivity.
  - by exists "Hydrocraft".
  - reflexivity.
  - by exists "HYDROCRAFT".
Defined.

Lemma X7_witness :
  get_dependents stub_graph "hydrocraft" = Raise (ValueError "No mod found with name or ID")
  ∧ get_dependencies stub_graph "hydrocraft"
    = Raise (ValueError "No mod found with name or ID").
Proof.
  apply (X7_lookup_not_found stub_graph "hydrocraft").
  - by vm_compute.
  - apply (bool_decide_unpack _). by vm_compute.
  - repeat constructor; eexists; (split; [reflexivity|by vm_compute]).
Defined.

Lemma X8_witness :
  get_dependents stub_graph "ROOT" = get_dependents stub_graph "123"
  ∧ get_dependencies stub_graph "ROOT" = get_dependencies stub_graph "123".
Proof.
  apply (X8_lookup_by_unique_name stub_graph "ROOT" 0
           (Vertex "123" (Some "Root")
              (Some "https://steamcommunity.com/sharedfiles/filedetails/?id=123")
              (Some ["root"]))).
  - apply (bool_decide_unpack _). by vm_compute.
  - apply (bool_decide_unpack _). by vm_compute.
  - repeat constructor; by eexists.
  - reflexivity.
  - by exists "Root".
  - intros [|[|j]] w Hw (n & Hn & Hlow); [done| |done].
    injection Hw as <-. injection Hn as <-. by vm_compute in Hlow.
Defined.

Lemma X9_witness :
  (get_dependents stub_graph "ROOT" = Ok [] ↔ get_dependents stub_graph "root" = Ok [])
  ∧ (get_dependencies stub_graph "ROOT" = Ok []
     ↔ get_dependencies stub_graph "root" = Ok []).
Proof.
  apply (X9_lookup_by_name_ignores_case stub_graph "ROOT" "root" []).
  - by vm_compute.
  - apply (bool_decide_unpack _). by vm_compute.
  - apply (bool_decide_unpack _). by vm_compute.
Defined.

End ModGraphQueries.

(** * Properties of the resolver and of the configuration lists *)

Module ModResolverFacts.

Import ModGraph ModGraphFacts ModManager ModManagerFacts ModGraphQueries.

Fixpoint digits_only (s : string) : bool :=
  match s with
  | EmptyString => true
  | String c s' => is_digit c && digits_only s'
  end.

Fixpoint contains (sep : ascii) (s : string) : bool :=
  match s with
  | EmptyString => false
  | String c s' => bool_decide (c = sep) || contains sep s'
  end.

Lemma take_digits_all (s : string) : digits_only s = true → take_digits s = s.
Proof.
  induction s as [|c s IH]; [done|]. simpl.
  intros [Hc Hs]%andb_prop. rewrite Hc. by rewrite IH.
Qed.

Lemma take_digits_digits (s : string) : digits_only (take_digits s) = true.
Proof.
  induction s as [|c s IH]; [done|]. simpl.
  destruct (is_digit c) eqn:Hc; [|done]. simpl. by rewrite Hc.
Qed.

(** One step of the search for [id=(\d+)]. *)
Lemma get_workshop_id_step (c : ascii) (rest : string) :
  get_workshop_id (String c rest) = get_workshop_id rest
  ∨ ∃ tail, get_workshop_id (String c rest) = take_digits tail.
Proof.
  destruct c as [[] [] [] [] [] [] [] []]; try (by left).
  destruct rest as [|c2 rest2]; [by left|].
  destruct c2 as [[] [] [] [] [] [] [] []]; try (by left).
  destruct rest2 as [|c3 tail]; [by left|].
  destruct c3 as [[] [] [] [] [] [] [] []]; try (by left).
  cbn. destruct (take_digits tail) eqn:Hd; [by left|]. right. exists tail. by rewrite Hd.
Qed.

Lemma get_workshop_id_digits_only (url : string) :
  digits_only (get_workshop_id url) = true.
Proof.
  induction url as [|c rest IH]; [done|].
  destruct (get_workshop_id_step c rest) as [->|[tail ->]]; [done|].
  apply take_digits_digits.
Qed.

Lemma workshop_id_of_url (mod_id : string) :
  mod_id ≠ "" → digits_only mod_id = true →
  get_workshop_id (get_url_from_mod_id mod_id) = mod_id.
Proof.
  intros Hne Hd. unfold get_url_from_mod_id. cbv -[take_digits].
  rewrite (take_digits_all _ Hd). by destruct mod_id.
Qed.

Lemma split_not_nil (sep : ascii) (s : string) : split sep s ≠ [].
Proof.
  destruct s as [|c s]; [done|]. simpl. case_decide; [done|].
  by destruct (split sep s).
Qed.

Lemma concat_split (sep : ascii) (s : string) :
  String.concat (String sep EmptyString) (split sep s) = s.
Proof.
  induction s as [|c s IH]; [done|]. simpl. case_decide as Hc.
  - subst c. pose proof (split_not_nil sep s) as Hne.
    destruct (split sep s) as [|w ws] eqn:Hs; [done|]. simpl in *. by rewrite IH.
  - pose proof (split_not_nil sep s) as Hne.
    destruct (split sep s) as [|w ws] eqn:Hs; [done|].
    destruct ws as [|w' ws]; simpl in *; by rewrite <- IH.
Qed.

Lemma split_no_sep (sep : ascii) (w : string) :
  contains sep w = false → split sep w = [w].
Proof.
  induction w as [|c w IH]; [done|]. simpl.
  intros [Hc Hw]%orb_false_elim. apply bool_decide_eq_false in Hc.
  rewrite decide_False by done. by rewrite IH.
Qed.

Lemma split_append (sep : ascii) (w rest : string) :
  contains sep w = false →
  split sep (w +:+ String sep rest) = w :: split sep rest.
Proof.
  induction w as [|c w IH]; simpl.
  - intros _. by rewrite decide_True.
  - intros [Hc Hw]%orb_false_elim. apply bool_decide_eq_false in Hc.
    rewrite decide_False by done. by rewrite IH.
Qed.

Lemma split_concat (sep : ascii) (l : list string) :
  l ≠ [] → Forall (λ w, contains sep w = false) l →
  split sep (String.concat (String sep EmptyString) l) = l.
Proof.
  induction l as [|w l IH]; [done|]. intros _ [Hw Hl]%Forall_cons.
  destruct l as [|w' l]; simpl.
  - by apply split_no_sep.
  - change (split sep (w +:+ String sep (String.concat (String sep EmptyString) (w' :: l)))
            = w :: w' :: l).
    rewrite split_append by done. f_equal. by apply IH.
Qed.


(** An entry as the resolver writes it: stored under its own catalog id,
    with its URL, title and internal ids. *)
Definition entry_ok (p : string * metadata) : Prop :=
  workshop_id p.2 = Some p.1 ∧ is_Some (mod_id p.2)
  ∧ is_Some (url p.2) ∧ is_Some (mod_name p.2).

Definition mapping_ok (d : list (string * metadata)) : Prop :=
  NoDup (dict_keys d) ∧ Forall entry_ok d.

Definition result_ok (r : result (option (list (string * metadata)))) : Prop :=
  ∀ d, r = Ok (Some d) → mapping_ok d.

Section DictInvariants.
Context {V : Type}.
Implicit Types (d : list (string * V)) (k : string) (v : V).

Lemma elem_of_keys_set d k v x :
  x ∈ dict_keys (dict_set d k v) ↔ x = k ∨ x ∈ dict_keys d.
Proof.
  unfold dict_keys. induction d as [|[k' v'] d IH]; csimpl.
  - rewrite list_elem_of_singleton, elem_of_nil. tauto.
  - case_decide as Hk; csimpl; rewrite !elem_of_cons.
    + subst k'. tauto.
    + rewrite IH. tauto.
Qed.

Lemma NoDup_keys_set d k v : NoDup (dict_keys d) → NoDup (dict_keys (dict_set d k v)).
Proof.
  unfold dict_keys. induction d as [|[k' v'] d IH]; csimpl.
  - intros _. apply NoDup_singleton.
  - intros [Hfresh Hnd]%NoDup_cons. case_decide as Hk; csimpl.
    + subst k'. by apply NoDup_cons.
    + apply NoDup_cons. split; [|by apply IH].
      intros [?|?]%(elem_of_keys_set d k v k'); [congruence|done].
Qed.

Lemma Forall_dict_set (P : string * V → Prop) d k v :
  Forall P d → P (k, v) → Forall P (dict_set d k v).
Proof.
  intros Hd Hv. induction Hd as [|[k' v'] d Hkv Hd IH]; simpl.
  - by apply Forall_singleton.
  - case_decide; apply Forall_cons; auto.
Qed.

Lemma dict_get_Forall (P : string * V → Prop) d k v :
  Forall P d → dict_get d k = Some v → P (k, v).
Proof.
  induction 1 as [|[k' v'] d Hkv Hd IH]; simpl; [done|].
  case_decide as Hk; [|done]. intros [= <-]. by subst k'.
Qed.

End DictInvariants.

Lemma mapping_ok_nil : mapping_ok [].
Proof. split; [apply NoDup_nil_2|apply Forall_nil_2]. Qed.

Lemma mapping_ok_set (d : list (string * metadata)) (k : string) (e : metadata) :
  mapping_ok d → entry_ok (k, e) → mapping_ok (dict_set d k e).
Proof. intros [Hnd Hall] He. split; [by apply NoDup_keys_set|by apply Forall_dict_set]. Qed.

Lemma entry_ok_append (k dep : string) (e : metadata) :
  entry_ok (k, e) → entry_ok (k, append_required e dep).
Proof. by intros (? & ? & ? & ?). Qed.

Section Resolver.

Context {Config : Type}.
Variable catalog : string → nat → response.

(** A property of the manager that requests keep, and that recording a
    timeout keeps whenever the catalog can time out. *)
Variable I : manager (Config := Config) → Prop.
Hypothesis I_request : ∀ m mod_url, I m → I (requests_get catalog mod_url m).2.
Hypothesis I_timeout : ∀ m mod_url n,
  catalog mod_url n = Timeout → I m → mod_url ∉ timed_out_url m →
  I (set_timed_out_url (timed_out_url m ++ [mod_url]) m).2.

Definition post (x : result (option (list (string * metadata))) * manager) : Prop :=
  I x.2 ∧ result_ok x.1.

Lemma request_children_inv
    (rec : string → option (list (string * metadata)) → option string →
           stateful manager (option (list (string * metadata)))) :
  (∀ mod_url md child m, result_ok (Ok md) → I m → post (rec mod_url md child m)) →
  ∀ anchors wid cur m,
    result_ok (Ok cur) → I m → post (request_children rec wid anchors cur m).
Proof.
  intros Hrec. induction anchors as [|href anchors IH]; intros wid cur m Hcur Hm.
  - by split.
  - destruct href as [[|c href]|]; simpl; [by apply IH| |by apply IH].
    destruct cur as [d|]; [|split; [done|by intros d]].
    case_decide; [|by apply IH]. unfold bind.
    pose proof (Hrec (String c href) (Some d) (Some wid) m Hcur Hm) as Hpost.
    destruct (rec (String c href) (Some d) (Some wid) m) as [[cur'|e] m'].
    + destruct Hpost as [Hm' Hcur']. by apply IH.
    + destruct Hpost as [Hm' _]. split; [done|by intros d'].
Qed.

Lemma request_inv (depth : nat) :
  ∀ mod_url md child m,
    result_ok (Ok md) → I m → post (_request_required_mod catalog depth mod_url md child m).
Proof.
  induction depth as [|depth IH]; intros mod_url md child m Hmd Hm.
  - split; [done|by intros d].
  - assert (mapping_ok (default [] md)) as Hd.
    { destruct md as [d|]; [by apply Hmd|apply mapping_ok_nil]. }
    cbn [_request_required_mod]. unfold bind at 1.
    pose proof (I_request m mod_url Hm) as Hm1.
    unfold requests_get at 1. unfold requests_get in Hm1. cbn [fst snd] in *.
    set (m1 := Manager _ _ _ _ _) in *.
    destruct (catalog mod_url (default 0 (requests_sent m !! mod_url))) as [|soup] eqn:Hcat.
    + unfold bind, get, ret. case_decide as Hnew; simpl.
      * split; [|by intros d]. simpl.
        by apply (I_timeout m1 mod_url _ Hcat).
      * split; [done|by intros d].
    + unfold bind at 1, lift. destruct (page_title soup) as [title|]; simpl;
        [|split; [done|by intros d]].
      unfold bind at 1. destruct (page_mod_ids soup) as [mod_ids|]; simpl;
        [|split; [done|by intros d]].
      set (wid := get_workshop_id mod_url).
      set (d1 := dict_set (default [] md) wid _).
      assert (mapping_ok d1) as Hd1.
      { apply mapping_ok_set; [done|]. by repeat split; eauto. }
      assert (∀ d2 : list (string * metadata), mapping_ok d2 →
                post (match page_required soup with
                      | Some anchors =>
                          request_children (_request_required_mod catalog depth) wid
                            anchors (Some d2)
                      | None => ret (Some d2)
                      end m1)) as Hrest.
      { intros d2 Hd2. destruct (page_required soup) as [anchors|].
        - apply request_children_inv; [exact IH| |done]. by intros d [= <-].
        - split; [done|]. by intros d [= <-]. }
      unfold bind at 1.
      destruct child as [[|c child]|]; [by apply Hrest| |by apply Hrest].
      unfold bind, lift, ret.
      destruct (dict_get d1 (String c child)) as [entry|] eqn:Hentry; simpl;
        [|split; [done|by intros d]].
      apply Hrest. apply mapping_ok_set; [done|]. apply entry_ok_append.
      destruct Hd1 as [_ Hall]. by apply (dict_get_Forall entry_ok d1).
Qed.

Lemma retry_urls_loop_inv (depth : nat) (retry_urls : list string) :
  ∀ md m, result_ok (Ok md) → I m →
    post (retry_urls_loop catalog depth retry_urls md m).
Proof.
  induction retry_urls as [|u retry_urls IH]; intros md m Hmd Hm; [by split|].
  simpl. unfold bind.
  pose proof (request_inv depth u None None m) as Hpost.
  destruct (_request_required_mod catalog depth u None None m) as [[md'|e] m'].
  - destruct Hpost as [Hm' Hmd']; [by intros d|done|]. simpl in *.
    destruct (truthy md'); [by split|by apply IH].
  - destruct Hpost as [Hm' _]; [by intros d|done|]. split; [done|by intros d].
Qed.

Hypothesis I_clear : ∀ m, I m → I (set_timed_out_url [] m).2.

Lemma retry_rounds_inv (depth n_retry : nat) :
  ∀ md m, result_ok (Ok md) → I m → post (retry_rounds catalog depth n_retry md m).
Proof.
  induction n_retry as [|n IH]; intros md m Hmd Hm; [by split|].
  cbn [retry_rounds]. unfold bind at 1, get.
  destruct (timed_out_url m) as [|u us] eqn:Hto; [by split|].
  unfold bind at 1. unfold set_timed_out_url at 1.
  pose proof (I_clear m Hm) as Hm0. unfold set_timed_out_url in Hm0. cbn [snd] in Hm0.
  set (m0 := Manager [] _ _ _ _) in *. unfold bind.
  pose proof (retry_urls_loop_inv depth (u :: us) md m0 Hmd Hm0) as Hpost.
  destruct (retry_urls_loop catalog depth (u :: us) md m0) as [[md'|e] m'].
  - destruct Hpost as [Hm' Hmd']. by apply IH.
  - destruct Hpost as [Hm' _]. split; [done|by intros d].
Qed.

Lemma get_required_mod_inv (depth : nat) (mod_url : string) (n_retry : nat)
    (m : manager) :
  I m → post (get_required_mod catalog depth mod_url n_retry m).
Proof.
  intros Hm. unfold get_required_mod, bind.
  pose proof (request_inv depth mod_url None None m) as Hpost.
  destruct (_request_required_mod catalog depth mod_url None None m) as [[md|e] m'].
  - destruct Hpost as [Hm' Hmd']; [by intros d|done|]. by apply retry_rounds_inv.
  - destruct Hpost as [Hm' _]; [by intros d|done|]. split; [done|by intros d].
Qed.

End Resolver.


Section ResolverRuns.

Context {Config : Type}.
Variable catalog : string → nat → response.
Implicit Type m : manager (Config := Config).

Lemma timed_out_url_NoDup (depth : nat) (mod_url : string) (n_retry : nat) m :
  NoDup (timed_out_url m) →
  NoDup (timed_out_url (get_required_mod catalog depth mod_url n_retry m).2).
Proof.
  intros Hm.
  apply (get_required_mod_inv catalog (λ m, NoDup (timed_out_url m))); [done| | |done].
  - intros m1 u n _ Hnd Hnew. simpl. apply NoDup_app. split; [done|].
    split; [|apply NoDup_singleton]. by intros x Hx ->%list_elem_of_singleton.
  - intros m1 _. simpl. apply NoDup_nil_2.
Qed.

Lemma resolved_mapping_ok (depth : nat) (mod_url : string) (n_retry : nat) m m'
    (md : list (string * metadata)) :
  get_required_mod catalog depth mod_url n_retry m = (Ok (Some md), m') →
  mapping_ok md.
Proof.
  intros Hrun.
  destruct (get_required_mod_inv catalog (λ _, True) (λ _ _ _, I) (λ _ _ _ _ _ _, I)
              (λ _ _, I) depth mod_url n_retry m I) as [_ Hok].
  apply Hok. by rewrite Hrun.
Qed.

Lemma resolved_mapping_installs (depth : nat) (mod_url : string) (n_retry : nat) m m'
    (md : list (string * metadata)) (workshop_ids mod_ids : list string) :
  get_required_mod catalog depth mod_url n_retry m = (Ok (Some md), m') →
  NoDup (dict_keys md)
  ∧ Forall entry_ok md
  ∧ add_to_config_loop (dict_values md) workshop_ids mod_ids
    = Ok (reverse (wid <$> filter (is_new workshop_ids) (dict_values md))
            ++ workshop_ids,
          mjoin (reverse (ids <$> filter (is_new workshop_ids) (dict_values md)))
            ++ mod_ids).
Proof.
  intros [Hnd Hall]%resolved_mapping_ok. split; [done|]. split; [done|].
  assert (wid <$> dict_values md = dict_keys md) as Hwid.
  { unfold dict_values, dict_keys. clear Hnd.
    induction Hall as [|[k e] d (Hk & _) _ IH]; [done|]. csimpl in *.
    rewrite IH. f_equal. unfold wid. by rewrite Hk. }
  apply add_to_config_loop_spec.
  - unfold dict_values. rewrite Forall_fmap. eapply Forall_impl; [done|].
    intros [k e] (Hk & Hids & _). simpl in *. split; [by rewrite Hk|done].
  - by rewrite Hwid.
Qed.

Lemma retry_rounds_idle (depth n_retry : nat)
    (md : option (list (string * metadata))) m :
  timed_out_url m = [] → retry_rounds catalog depth n_retry md m = (Ok md, m).
Proof.
  intros Hto. destruct n_retry as [|n]; [done|].
  cbn [retry_rounds]. unfold bind, get. by rewrite Hto.
Qed.

Lemma no_timeout_no_retry (depth : nat) (mod_url : string) (n_retry : nat) m :
  (∀ u n, catalog u n ≠ Timeout) →
  timed_out_url m = [] →
  get_required_mod catalog depth mod_url n_retry m
  = _request_required_mod catalog depth mod_url None None m
  ∧ timed_out_url (get_required_mod catalog depth mod_url n_retry m).2 = [].
Proof.
  intros Hcat Hto.
  destruct (request_inv catalog (λ m, timed_out_url m = []) (λ _ _ H, H)
              (λ _ u n Hc, False_ind _ (Hcat u n Hc)) depth mod_url None None m)
    as [Hto' _]; [by intros d|done|].
  unfold get_required_mod, bind.
  destruct (_request_required_mod catalog depth mod_url None None m) as [[md|e] m'];
    [|done].
  simpl in Hto'. by rewrite retry_rounds_idle.
Qed.

Definition after_requests m (u : string) (k : nat) : manager (Config := Config) :=
  Manager [u] (<[u := (default 0%nat (requests_sent m !! u) + k)%nat]> (requests_sent m))
    (zomboid_config m) (_mod_graph m) (meta_file m).

Lemma request_times_out (depth : nat) (u : string)
    (md : option (list (string * metadata))) (child : option string) m :
  (∀ n, catalog u n = Timeout) →
  timed_out_url m = [] ∨ timed_out_url m = [u] →
  _request_required_mod catalog (S depth) u md child m
  = (Ok None, Manager [u] (<[u := S (default 0%nat (requests_sent m !! u))]> (requests_sent m))
                (zomboid_config m) (_mod_graph m) (meta_file m)).
Proof.
  intros Hcat Hto. cbn [_request_required_mod]. unfold bind at 1, requests_get at 1.
  rewrite Hcat. unfold bind, get, ret. cbn [timed_out_url].
  destruct Hto as [-> | ->].
  - by rewrite decide_True by apply not_elem_of_nil.
  - rewrite decide_False; [done|]. intros H. apply H. by left.
Qed.

Lemma retry_rounds_all_time_out (depth : nat) (u : string) (n_retry : nat) :
  (∀ n, catalog u n = Timeout) →
  ∀ m k, retry_rounds catalog (S depth) n_retry None (after_requests m u (S k))
         = (Ok None, after_requests m u (S k + n_retry)).
Proof.
  intros Hcat. induction n_retry as [|n IH]; intros m k.
  - by rewrite Nat.add_0_r.
  - cbn [retry_rounds]. unfold bind at 1, get. cbn [after_requests timed_out_url].
    unfold bind at 1, set_timed_out_url at 1. cbn [retry_urls_loop].
    unfold bind at 1, bind at 1.
    rewrite request_times_out; [|done|by left]. cbn [truthy requests_sent].
    unfold ret. cbn [after_requests requests_sent zomboid_config _mod_graph meta_file].
    rewrite lookup_insert_eq, insert_insert_eq. cbn [default].
    replace (Manager [u] _ _ _ _) with (after_requests m u (S (S k))).
    2:{ unfold after_requests.
        by replace (default 0 (requests_sent m !! u) + S (S k))
          with (S (default 0 (requests_sent m !! u) + S k)) by lia. }
    rewrite (IH m (S k)). by replace (S (S k) + n) with (S k + S n) by lia.
Qed.

Lemma all_time_out (depth : nat) (u : string) (n_retry : nat) m :
  (∀ n, catalog u n = Timeout) →
  timed_out_url m = [] →
  get_required_mod catalog (S depth) u n_retry m
  = (Ok None, after_requests m u (S n_retry)).
Proof.
  intros Hcat Hto. unfold get_required_mod, bind.
  rewrite request_times_out; [|done|by left].
  replace (Manager [u] _ _ _ _) with (after_requests m u 1)
    by (unfold after_requests; by rewrite Nat.add_1_r).
  by rewrite (retry_rounds_all_time_out depth u n_retry Hcat m 0).
Qed.

Lemma request_children_first
    (rec : string → option (list (string * metadata)) → option string →
           stateful manager (option (list (string * metadata))))
    (wid href : string) (rest : list (option string)) (d : list (string * metadata)) m :
  href ≠ "" → href ∉ dict_keys d →
  request_children rec wid (Some href :: rest) (Some d) m
  = bind (rec href (Some d) (Some wid)) (request_children rec wid rest) m.
Proof.
  intros Hne Hnew. destruct href as [|c href]; [done|].
  cbn [request_children]. by rewrite decide_True.
Qed.

Lemma self_requirement_recurses (u title : string) (mod_ids : list string)
    (rest : list (option string)) :
  (∀ n, catalog u n = Fetched (Page (Some title) (Some mod_ids) (Some (Some u :: rest)))) →
  u ≠ "" → get_workshop_id u ≠ u →
  ∀ depth md child m,
    (md = None ∧ child = None)
    ∨ (∃ e, md = Some [(get_workshop_id u, e)] ∧ child = Some (get_workshop_id u)) →
    (_request_required_mod catalog depth u md child m).1 = Raise RecursionError.
Proof.
  intros Hcat Hne Hwid. induction depth as [|depth IH]; intros md child m Hin; [done|].
  cbn [_request_required_mod]. unfold bind at 1, requests_get at 1. rewrite Hcat.
  cbn [page_title page_mod_ids page_required]. unfold bind at 1, lift at 1.
  cbn [expect]. unfold bind at 1, lift at 1. cbn [expect].
  set (wid := get_workshop_id u) in *.
  set (e0 := Metadata (Some u) (Some title) (Some wid) (Some mod_ids) None).
  assert (dict_set (default [] md) wid e0 = [(wid, e0)]) as ->.
  { destruct Hin as [[-> _]|(e & -> & _)]; simpl; [done|]. by rewrite decide_True. }
  set (m1 := Manager _ _ _ _ _).
  assert (∀ e1, (request_children (_request_required_mod catalog depth) wid
                   (Some u :: rest) (Some [(wid, e1)]) m1).1 = Raise RecursionError)
    as Hloop.
  { intros e1. rewrite request_children_first; [|done|].
    2:{ simpl. intros H%list_elem_of_singleton. apply Hwid. by symmetry. }
    unfold bind. specialize (IH (Some [(wid, e1)]) (Some wid) m1).
    destruct (_request_required_mod catalog depth u (Some [(wid, e1)]) (Some wid) m1)
      as [[r|e] m2]; simpl in *.
    - discriminate IH; eauto.
    - apply IH. right. eauto. }
  unfold bind at 1.
  destruct child as [[|c child]|].
  - unfold ret. apply Hloop.
  - unfold bind, lift, ret.
    destruct Hin as [[_ [=]]|(e & _ & [= Hc])].
    rewrite Hc.
    assert (dict_get [(wid, e0)] wid = Some e0) as -> by (simpl; by rewrite decide_True).
    cbn [expect].
    assert (dict_set [(wid, e0)] wid (append_required e0 wid)
            = [(wid, append_required e0 wid)]) as -> by (simpl; by rewrite decide_True).
    apply Hloop.
  - unfold ret. apply Hloop.
Qed.

End ResolverRuns.



Definition config_step_kept (workshop_ids mod_ids : list string)
    (lists : list string * list string) : Prop :=
  workshop_ids `suffix_of` lists.1 ∧ mod_ids `suffix_of` lists.2
  ∧ (NoDup workshop_ids → NoDup lists.1).

Lemma add_to_config_step_kept (workshop_ids mod_ids : list string)
    (lists lists' : list string * list string) (m : metadata) :
  config_step_kept workshop_ids mod_ids lists →
  add_to_config_step lists m = Ok lists' →
  config_step_kept workshop_ids mod_ids lists' ∧ wid m ∈ lists'.1.
Proof.
  destruct lists as [ws ms]. intros (Hws & Hms & Hnd). unfold add_to_config_step.
  destruct (workshop_id m) as [w|] eqn:Hw; [|done]. cbn.
  assert (wid m = w) as -> by (unfold wid; by rewrite Hw).
  case_decide as Hnew.
  - destruct (mod_id m) as [i|]; [|done]. cbn. intros [= <-]. simpl.
    split; [|by left]. unfold config_step_kept. simpl in *.
    split; [by apply suffix_cons_r|].
    split; [by apply suffix_app_r|]. intros Hnd0. apply NoDup_cons. auto.
  - intros [= <-]. simpl. split; [done|]. exact Hnew.
Qed.

Lemma add_to_config_loop_kept (values : list metadata) :
  ∀ (workshop_ids mod_ids : list string) (lists lists' : list string * list string),
    config_step_kept workshop_ids mod_ids lists →
    for_each add_to_config_step lists values = Ok lists' →
    config_step_kept workshop_ids mod_ids lists'
    ∧ (∀ m, m ∈ values → wid m ∈ lists'.1).
Proof.
  induction values as [|m values IH]; intros workshop_ids mod_ids lists lists' Hkept Hrun.
  - injection Hrun as <-. split; [done|]. by intros m ?%elem_of_nil.
  - rewrite for_each_cons in Hrun.
    destruct (add_to_config_step lists m) as [lists1|e] eqn:Hstep; [|done].
    destruct (add_to_config_step_kept _ _ _ _ _ Hkept Hstep) as [Hkept1 Hin1].
    destruct (IH _ _ _ _ Hkept1 Hrun) as [Hkept' Hin']. split; [done|].
    intros m' [->|Hm']%elem_of_cons; [|by apply Hin'].
    clear -IH Hin1 Hrun.
    assert (config_step_kept lists1.1 lists1.2 lists1) as Hself by (split; [done|split; [done|by intros ?]]).
    destruct (IH _ _ _ _ Hself Hrun) as [(Hsuf & _) _].
    destruct Hsuf as [pre ->]. apply elem_of_app. by right.
Qed.

Lemma add_to_config_loop_total (values : list metadata) :
  Forall (λ m, is_Some (workshop_id m) ∧ is_Some (mod_id m)) values →
  ∀ lists, ∃ lists', for_each add_to_config_step lists values = Ok lists'.
Proof.
  induction 1 as [|m values [[w Hw] [i Hi]] _ IH]; intros [ws ms]; [by eexists|].
  assert (∃ lists1, add_to_config_step (ws, ms) m = Ok lists1) as [lists1 Hstep].
  { unfold add_to_config_step. rewrite Hw. cbn. case_decide; [rewrite Hi; cbn|]; eauto. }
  rewrite for_each_cons, Hstep. apply IH.
Qed.

Lemma split_parts_no_sep (sep : ascii) (s : string) :
  Forall (λ w, contains sep w = false) (split sep s).
Proof.
  induction s as [|c s IH]; [by apply Forall_singleton|]. simpl.
  case_decide as Hc; [by apply Forall_cons|].
  destruct (split sep s) as [|w ws]; simpl.
  - apply Forall_singleton. simpl. by rewrite bool_decide_eq_false_2.
  - apply Forall_cons in IH as [Hw Hws]. apply Forall_cons. split; [|done].
    simpl. by rewrite bool_decide_eq_false_2.
Qed.

Lemma get_workshop_id_of_digits (u : string) :
  digits_only u = true → get_workshop_id u = "".
Proof.
  induction u as [|c rest IH]; [done|]. simpl digits_only.
  intros [Hc Hrest]%andb_prop.
  destruct c as [[] [] [] [] [] [] [] []]; vm_compute in Hc; try discriminate Hc;
    cbn; by apply IH.
Qed.

(** A URL is never its own workshop id. *)
Lemma get_workshop_id_ne (u : string) : u ≠ "" → get_workshop_id u ≠ u.
Proof.
  intros Hne Heq. pose proof (get_workshop_id_digits_only u) as Hd.
  rewrite Heq in Hd. apply get_workshop_id_of_digits in Hd. congruence.
Qed.

Lemma add_to_config_loop_no_sep (values : list metadata)
    (workshop_ids mod_ids : list string) (lists' : list string * list string) :
  Forall (λ w, contains ";" w = false) workshop_ids →
  Forall (λ e, contains ";" (wid e) = false) values →
  add_to_config_loop values workshop_ids mod_ids = Ok lists' →
  Forall (λ w, contains ";" w = false) lists'.1.
Proof.
  intros Hws Hvalues Hrun.
  apply (for_each_preserves (λ lists, Forall (λ w, contains ";" w = false) lists.1)
           add_to_config_step values) with (s := (workshop_ids, mod_ids));
    [|done|done].
  intros [ws ms] e [ws' ms'] Hin Hs. unfold add_to_config_step.
  destruct (workshop_id e) as [w|] eqn:Hw; [|done]. cbn. case_decide.
  - destruct (mod_id e); [|done]. cbn. intros [= <- <-]. simpl.
    apply Forall_cons. split; [|done].
    rewrite Forall_forall in Hvalues. specialize (Hvalues e Hin).
    unfold wid in Hvalues. by rewrite Hw in Hvalues.
  - by intros [= <- <-].
Qed.

Lemma add_to_config_loop_installed (values : list metadata)
    (workshop_ids mod_ids : list string) :
  Forall (λ e, ∃ w, workshop_id e = Some w ∧ w ∈ workshop_ids) values →
  add_to_config_loop values workshop_ids mod_ids = Ok (workshop_ids, mod_ids).
Proof.
  unfold add_to_config_loop. induction 1 as [|e values (w & Hw & Hin) _ IH]; [done|].
  simpl. rewrite Hw. simpl.
  destruct (decide (w ∉ workshop_ids)) as [Hnew|_]; [done|]. exact IH.
Qed.

(** When [add_to_config] returns, the graph of the manager is the merge of
    the batch into the graph of before. *)
Lemma add_to_config_graph {Config : Type}
    (get_main_config_value : Config → string → option string)
    (change_main_config : Config → string → string → Config)
    (mod_metadata : list (string * metadata)) (m : manager (Config := Config)) :
  (add_to_config get_main_config_value change_main_config mod_metadata m).1 = Ok () →
  update_by_metadata (_mod_graph m) mod_metadata
  = Ok (_mod_graph
          (add_to_config get_main_config_value change_main_config mod_metadata m).2).
Proof.
  unfold add_to_config, bind, get, lift, put. simpl.
  destruct (get_main_config_value (zomboid_config m) "WorkshopItems"); simpl; [|done].
  destruct (get_main_config_value (zomboid_config m) "Mods"); simpl; [|done].
  destruct (add_to_config_loop _ _ _); simpl; [|done].
  by destruct (update_by_metadata (_mod_graph m) mod_metadata).
Qed.

(** A Workshop whose pages have no required items and never time out, one
    that always times out, and one whose every page lists item 9 and then
    item 10 as required. *)
Definition static_catalog (url : string) (n : nat) : response :=
  Fetched (Page (Some "Solo") (Some ["solo"]) None).

Definition down_catalog (url : string) (n : nat) : response := Timeout.

Definition loop_catalog (url : string) (n : nat) : response :=
  Fetched (Page (Some "Loop") (Some ["loop"])
             (Some [Some (workshop_url "9"); Some (workshop_url "10")])).

(** A manager over a configuration kept as a dictionary. *)
Definition ini_manager (config : list (string * string)) (g : ZomboidModGraph)
    : manager (Config := list (string * string)) :=
  Manager [] ∅ config g None.

(** X10: for a non-empty string of digits, the workshop id read back from
    the URL [get_url_from_mod_id] builds is that string. *)
Theorem X10_workshop_id_of_built_url (mod_id : string) :
  mod_id ≠ "" → digits_only mod_id = true →
  get_workshop_id (get_url_from_mod_id mod_id) = mod_id.
Proof. apply workshop_id_of_url. Qed.

Lemma X10_witness : get_workshop_id (get_url_from_mod_id "2169435993") = "2169435993".
Proof. apply (X10_workshop_id_of_built_url "2169435993"); [done|reflexivity]. Defined.

(** X11: whatever the URL, [get_workshop_id] returns a string of digits,
    possibly empty. *)
Theorem X11_get_workshop_id_is_numeric (url : string) :
  digits_only (get_workshop_id url) = true.
Proof. apply get_workshop_id_digits_only. Qed.

(** X12: [get_required_mod] never records a URL twice: when
    [timed_out_url] has no duplicates before the call it has none after
    it, whatever the Workshop answers and however the call ends. *)
Theorem X12_timed_out_url_stays_duplicate_free {Config : Type}
    (catalog : string → nat → response) (depth : nat) (mod_url : string)
    (n_retry : nat) (m : manager (Config := Config)) :
  NoDup (timed_out_url m) →
  NoDup (timed_out_url (get_required_mod catalog depth mod_url n_retry m).2).
Proof. apply timed_out_url_NoDup. Qed.

Lemma X12_witness :
  NoDup (timed_out_url
           (get_required_mod flaky_catalog 1000 (workshop_url "123") 2 fresh_manager).2).
Proof.
  apply (X12_timed_out_url_stays_duplicate_free flaky_catalog 1000 (workshop_url "123") 2
           fresh_manager).
  apply NoDup_nil_2.
Defined.

(** X13: a mapping returned by [get_required_mod] is well formed: every
    entry is stored under its own workshop id and carries a URL, a title
    and a list of internal ids (the keys, being those of a dictionary, are
    distinct). *)
Theorem X13_resolved_mapping_well_formed {Config : Type}
    (catalog : string → nat → response) (depth : nat) (mod_url : string)
    (n_retry : nat) (m : manager (Config := Config)) (md : list (string * metadata)) :
  (get_required_mod catalog depth mod_url n_retry m).1 = Ok (Some md) →
  NoDup (dict_keys md) ∧ Forall entry_ok md.
Proof.
  intros Hrun. destruct (get_required_mod catalog depth mod_url n_retry m) as [r m'] eqn:H.
  simpl in Hrun. subst r. by apply (resolved_mapping_ok catalog depth mod_url n_retry m m').
Qed.

Lemma X13_witness :
  NoDup (dict_keys [("456", Metadata (Some (workshop_url "456")) (Some "Lib") (Some "456")
                              (Some ["lib"]) None)])
  ∧ Forall entry_ok [("456", Metadata (Some (workshop_url "456")) (Some "Lib") (Some "456")
                               (Some ["lib"]) None)].
Proof.
  apply (X13_resolved_mapping_well_formed flaky_catalog 1000 (workshop_url "123") 2
           fresh_manager).
  by vm_compute.
Defined.

(** X14: the loop of [add_to_config] never fails on a mapping returned by
    [get_required_mod]: no entry lacks its workshop id or its internal
    ids, and the two lists it computes are those of the insertion rule. *)
Theorem X14_resolved_mapping_installs {Config : Type}
    (catalog : string → nat → response) (depth : nat) (mod_url : string)
    (n_retry : nat) (m : manager (Config := Config)) (md : list (string * metadata))
    (workshop_ids mod_ids : list string) :
  (get_required_mod catalog depth mod_url n_retry m).1 = Ok (Some md) →
  add_to_config_loop (dict_values md) workshop_ids mod_ids
  = Ok (reverse (wid <$> filter (is_new workshop_ids) (dict_values md))
          ++ workshop_ids,
        mjoin (reverse (ids <$> filter (is_new workshop_ids) (dict_values md)))
          ++ mod_ids).
Proof.
  intros Hrun. destruct (get_required_mod catalog depth mod_url n_retry m) as [r m'] eqn:H.
  simpl in Hrun. subst r.
  by destruct (resolved_mapping_installs catalog depth mod_url n_retry m m' md
                 workshop_ids mod_ids H) as (_ & _ & ?).
Qed.

Lemma X14_witness :
  add_to_config_loop
    (dict_values [("456", Metadata (Some (workshop_url "456")) (Some "Lib") (Some "456")
                            (Some ["lib"]) None)]) ["7"] ["x"]
  = Ok (reverse (wid <$> filter (is_new ["7"])
                   (dict_values [("456", Metadata (Some (workshop_url "456")) (Some "Lib")
                                           (Some "456") (Some ["lib"]) None)]))
          ++ ["7"],
        mjoin (reverse (ids <$> filter (is_new ["7"])
                          (dict_values [("456", Metadata (Some (workshop_url "456"))
                                                  (Some "Lib") (Some "456")
                                                  (Some ["lib"]) None)])))
          ++ ["x"]).
Proof.
  apply (X14_resolved_mapping_installs flaky_catalog 1000 (workshop_url "123") 2
           fresh_manager).
  by vm_compute.
Defined.

(** X15: when no request times out and no URL is pending, the retry loop
    of [get_required_mod] does nothing: the call is the first pass alone,
    and [timed_out_url] is still empty after it. *)
Theorem X15_no_timeout_no_retry {Config : Type}
    (catalog : string → nat → response) (depth : nat) (mod_url : string)
    (n_retry : nat) (m : manager (Config := Config)) :
  (∀ u n, catalog u n ≠ Timeout) →
  timed_out_url m = [] →
  get_required_mod catalog depth mod_url n_retry m
  = _request_required_mod catalog depth mod_url None None m
  ∧ timed_out_url (get_required_mod catalog depth mod_url n_retry m).2 = [].
Proof. apply no_timeout_no_retry. Qed.

Lemma X15_witness :
  get_required_mod static_catalog 1000 (workshop_url "5") 2 fresh_manager
  = _request_required_mod static_catalog 1000 (workshop_url "5") None None fresh_manager
  ∧ timed_out_url
      (get_required_mod static_catalog 1000 (workshop_url "5") 2 fresh_manager).2 = [].
Proof.
  apply (X15_no_timeout_no_retry static_catalog 1000 (workshop_url "5") 2 fresh_manager);
    done.
Defined.

(** X16: when every request for the URL times out and no URL is pending,
    [get_required_mod] returns [None] without raising, after exactly
    [1 + n_retry] requests for the URL, and leaves the URL pending. *)
Theorem X16_unreachable_url_gives_none {Config : Type}
    (catalog : string → nat → response) (depth : nat) (u : string)
    (n_retry : nat) (m : manager (Config := Config)) :
  (∀ n, catalog u n = Timeout) →
  timed_out_url m = [] →
  get_required_mod catalog (S depth) u n_retry m
  = (Ok None, after_requests m u (S n_retry)).
Proof. apply all_time_out. Qed.

Lemma X16_witness :
  get_required_mod down_catalog 1000 (workshop_url "5") 2 fresh_manager
  = (Ok None, after_requests fresh_manager (workshop_url "5") 3).
Proof.
  apply (X16_unreachable_url_gives_none down_catalog 999 (workshop_url "5") 2
           fresh_manager); done.
Defined.

(** X17: a page whose first required item is its own URL is never
    resolved, whatever items follow it: the anchor is compared with the
    workshop ids stored so far, which no URL equals, so the item is
    requested again at every level and [get_required_mod] ends in
    [RecursionError] whatever the depth the interpreter allows. *)
Theorem X17_self_requirement_never_resolves {Config : Type}
    (catalog : string → nat → response) (u title : string) (mod_ids : list string)
    (rest : list (option string)) (depth n_retry : nat) (m : manager (Config := Config)) :
  (∀ n, catalog u n
        = Fetched (Page (Some title) (Some mod_ids) (Some (Some u :: rest)))) →
  u ≠ "" →
  (get_required_mod catalog depth u n_retry m).1 = Raise RecursionError.
Proof.
  intros Hcat Hne. unfold get_required_mod, bind.
  pose proof (self_requirement_recurses catalog u title mod_ids rest Hcat Hne
                (get_workshop_id_ne u Hne) depth None None m
                (or_introl (conj eq_refl eq_refl))) as Hrun.
  by destruct (_request_required_mod catalog depth u None None m) as [[r|e] m'].
Qed.

Lemma X17_witness :
  (get_required_mod loop_catalog 1000 (workshop_url "9") 2 fresh_manager).1
  = Raise RecursionError.
Proof.
  apply (X17_self_requirement_never_resolves loop_catalog (workshop_url "9") "Loop"
           ["loop"] [Some (workshop_url "10")] 1000 2 fresh_manager); done.
Defined.

(** X18: whatever the batch, when the loop of [add_to_config] ends the
    initial WorkshopItems and Mods lists are still there, in order, at the
    end of the new lists; no workshop id was duplicated; and the
    workshop id of every entry of the batch is in the new WorkshopItems
    list. *)
Theorem X18_add_to_config_keeps_lists (values : list metadata)
    (workshop_ids mod_ids : list string) (lists' : list string * list string) :
  add_to_config_loop values workshop_ids mod_ids = Ok lists' →
  workshop_ids `suffix_of` lists'.1
  ∧ mod_ids `suffix_of` lists'.2
  ∧ (NoDup workshop_ids → NoDup lists'.1)
  ∧ ∀ m, m ∈ values → wid m ∈ lists'.1.
Proof.
  intros Hrun.
  destruct (add_to_config_loop_kept values workshop_ids mod_ids
              (workshop_ids, mod_ids) lists') as [(Hws & Hms & Hnd) Hin];
    [by split; [|split]|exact Hrun|done].
Qed.

Lemma X18_witness :
  ["7"; "8"] `suffix_of` ["2"; "1"; "7"; "8"]
  ∧ ["x"; "y"] `suffix_of` ["b"; "a"; "a2"; "x"; "y"]
  ∧ (NoDup ["7"; "8"] → NoDup ["2"; "1"; "7"; "8"])
  ∧ ∀ m, m ∈ [entry "1" ["a"; "a2"]; entry "7" ["x"]; entry "2" ["b"]] →
         wid m ∈ ["2"; "1"; "7"; "8"].
Proof.
  apply (X18_add_to_config_keeps_lists
           [entry "1" ["a"; "a2"]; entry "7" ["x"]; entry "2" ["b"]]
           ["7"; "8"] ["x"; "y"] (["2"; "1"; "7"; "8"], ["b"; "a"; "a2"; "x"; "y"])).
  by vm_compute.
Defined.

(** X19: [check_mod_installation] finds what [add_to_config] wrote: when
    WorkshopItems holds the list the loop of [add_to_config] computed,
    joined by [";"], every entry of the batch is reported installed,
    provided no workshop id contains a [";"]. *)
Theorem X19_written_ids_are_installed {Config : Type}
    (get_main_config_value : Config → string → option string)
    (values : list metadata) (workshop_ids mod_ids : list string)
    (lists' : list string * list string) (m : manager (Config := Config))
    (e : metadata) :
  Forall (λ w, contains ";" w = false) workshop_ids →
  Forall (λ e, contains ";" (wid e) = false) values →
  add_to_config_loop values workshop_ids mod_ids = Ok lists' →
  get_main_config_value (zomboid_config m) "WorkshopItems"
  = Some (String.concat ";" lists'.1) →
  e ∈ values →
  check_mod_installation get_main_config_value (wid e) m = (Ok true, m).
Proof.
  intros Hws Hvalues Hrun Hget Hin.
  pose proof (add_to_config_loop_no_sep _ _ _ _ Hws Hvalues Hrun) as Hsep.
  destruct (add_to_config_loop_kept values workshop_ids mod_ids
              (workshop_ids, mod_ids) lists') as [_ Hall];
    [by split; [|split]|exact Hrun|].
  specialize (Hall e Hin).
  unfold check_mod_installation, bind, get, lift, ret. simpl. rewrite Hget. simpl.
  rewrite split_concat; [|by intros E; rewrite E in Hall; apply elem_of_nil in Hall|done].
  by rewrite bool_decide_eq_true_2.
Qed.

Lemma X19_witness :
  check_mod_installation (dict_get (V := string)) (wid (entry "2" ["b"]))
    (ini_manager [("WorkshopItems", "2;1;7;8")] empty)
  = (Ok true, ini_manager [("WorkshopItems", "2;1;7;8")] empty).
Proof.
  apply (X19_written_ids_are_installed (dict_get (V := string))
           [entry "1" ["a"; "a2"]; entry "7" ["x"]; entry "2" ["b"]]
           ["7"; "8"] ["x"; "y"] (["2"; "1"; "7"; "8"], ["b"; "a"; "a2"; "x"; "y"])).
  - repeat constructor.
  - repeat constructor.
  - by vm_compute.
  - reflexivity.
  - apply (bool_decide_unpack _). by vm_compute.
Defined.

(** X20: adding a batch whose entries are all installed already leaves
    the two settings as they are: [add_to_config] writes WorkshopItems and
    Mods back with the very values it read. *)
Theorem X20_readding_installed_keeps_settings {Config : Type}
    (get_main_config_value : Config → string → option string)
    (change_main_config : Config → string → string → Config)
    (mod_metadata : list (string * metadata)) (m : manager (Config := Config))
    (workshop_items mods : string) :
  get_main_config_value (zomboid_config m) "WorkshopItems" = Some workshop_items →
  get_main_config_value (zomboid_config m) "Mods" = Some mods →
  Forall (λ e, ∃ w, workshop_id e = Some w ∧ w ∈ split ";" workshop_items)
    (dict_values mod_metadata) →
  zomboid_config
    (add_to_config get_main_config_value change_main_config mod_metadata m).2
  = change_main_config
      (change_main_config (zomboid_config m) "WorkshopItems" workshop_items)
      "Mods" mods.
Proof.
  intros Hws Hms Hall. unfold add_to_config, bind, get, lift, put. simpl.
  rewrite Hws, Hms. simpl. rewrite add_to_config_loop_installed by done. simpl.
  rewrite !concat_split.
  by destruct (update_by_metadata (_mod_graph m) mod_metadata).
Qed.

Lemma X20_witness :
  zomboid_config
    (add_to_config (dict_get (V := string)) (dict_set (V := string))
       [("7", entry "7" ["x"])]
       (ini_manager [("WorkshopItems", "7;8"); ("Mods", "x;y")] empty)).2
  = dict_set (dict_set [("WorkshopItems", "7;8"); ("Mods", "x;y")] "WorkshopItems" "7;8")
      "Mods" "x;y".
Proof.
  apply (X20_readding_installed_keeps_settings (dict_get (V := string))
           (dict_set (V := string)) [("7", entry "7" ["x"])]
           (ini_manager [("WorkshopItems", "7;8"); ("Mods", "x;y")] empty) "7;8" "x;y").
  - reflexivity.
  - reflexivity.
  - repeat constructor. exists "7". split; [reflexivity|].
    apply (bool_decide_unpack _). by vm_compute.
Defined.

(** X21: a requirement added by [add_to_config] blocks the deletion of the
    required mod: after [add_to_config] returned for a batch in which [k]
    requires [dep], [delete_mod] of [dep] without the override raises
    [ValueError] and changes nothing. *)
Theorem X21_added_requirement_blocks_delete {Config : Type}
    (get_main_config_value : Config → string → option string)
    (change_main_config : Config → string → string → Config)
    (mod_metadata : list (string * metadata)) (m : manager (Config := Config))
    (k dep : string) (d : metadata) :
  well_formed (graph (_mod_graph m)) →
  NoDup (dict_keys mod_metadata) →
  (k, d) ∈ mod_metadata → dep ∈ default [] (required d) →
  (add_to_config get_main_config_value change_main_config mod_metadata m).1 = Ok () →
  delete_mod dep false
    (add_to_config get_main_config_value change_main_config mod_metadata m).2
  = (Raise (ValueError "Can't be deleted because has dependents:"),
     (add_to_config get_main_config_value change_main_config mod_metadata m).2).
Proof.
  intros Hwf Hnd Hin Hdep Hrun%add_to_config_graph.
  destruct (merged_requirement_queryable _ _ _ _ _ _ Hwf Hnd Hin Hdep Hrun)
    as (dependents & _ & Hget & Hk & _).
  destruct dependents as [|d0 ds]; [by apply elem_of_nil in Hk|].
  by apply (delete_mod_rejects dep _ d0 ds).
Qed.

Lemma X21_witness :
  delete_mod "456" false
    (add_to_config (dict_get (V := string)) (dict_set (V := string)) stub_batch
       (ini_manager [("WorkshopItems", ""); ("Mods", "")] empty)).2
  = (Raise (ValueError "Can't be deleted because has dependents:"),
     (add_to_config (dict_get (V := string)) (dict_set (V := string)) stub_batch
        (ini_manager [("WorkshopItems", ""); ("Mods", "")] empty)).2).
Proof.
  apply (X21_added_requirement_blocks_delete (dict_get (V := string))
           (dict_set (V := string)) stub_batch
           (ini_manager [("WorkshopItems", ""); ("Mods", "")] empty) "123" "456"
           (Metadata (Some "https://steamcommunity.com/sharedfiles/filedetails/?id=123")
              (Some "Root") (Some "123") (Some ["root"]) (Some ["456"]))).
  - apply (bool_decide_unpack _). by vm_compute.
  - apply (bool_decide_unpack _). by vm_compute.
  - apply (bool_decide_unpack _). by vm_compute.
  - apply (bool_decide_unpack _). by vm_compute.
  - by vm_compute.
Defined.

End ModResolverFacts.

(** * Properties of the tallies *)

Module PollFacts.

Import Bot BotFacts.
Open Scope Z_scope.

(** The tally of a poll as [add_mod] creates it, with its two counts. *)
Definition tally_map (a d : Z) : gmap string Z :=
  <["Tidak Setuju" := d]> (<["Setuju" := a]> ∅).

(** A poll in the shape [add_mod] gives it whose answer count is the sum
    of its two tallies. *)
Definition tallied (s : state) (p : string) : Prop :=
  ∃ info a d,
    bot_data s !! p = Some info
    ∧ questions info = ["Setuju"; "Tidak Setuju"]
    ∧ polls s !! p = Some (tally_map a d)
    ∧ answers info = a + d.

(** A vote the handler did not take: nothing but the result tells. *)
Definition vote_refused (Q now : Z) (ans : poll_answer) (s : state) : Prop :=
  (∃ e, (receive_poll_answer Q now ans s).1 = Raise e)
  ∧ (receive_poll_answer Q now ans s).2 = s.

(** A vote the handler counted. *)
Definition vote_counted (Q now : Z) (ans : poll_answer) (s : state) : Prop :=
  ∃ info info' a t c,
    bot_data s !! poll_id ans = Some info
    ∧ answer_string_loop (questions info) (List.last (option_ids ans) 0%nat)
        (option_ids ans) "" = Ok a
    ∧ polls s !! poll_id ans = Some t
    ∧ t !! a = Some c
    ∧ polls (receive_poll_answer Q now ans s).2
      = <[poll_id ans := <[a := c + 1]> t]> (polls s)
    ∧ bot_data (receive_poll_answer Q now ans s).2
      = <[poll_id ans := info']> (bot_data s)
    ∧ questions info' = questions info
    ∧ answers info' = answers info + 1.

(** What happens to the bot once a poll is open: a handler runs, or
    [add_mod] is called again and sends one of its three answers. *)
Inductive update : Type :=
| Handled (now : Z) (ev : event)
| AddMod (now chat : Z) (args : string) (valid installed : bool)
    (poll_id : string) (msg_id : Z).

Definition apply_update (Q : Z) (u : update) (s : state) : state :=
  match u with
  | Handled now ev => (handle Q now ev s).2
  | AddMod now chat args valid installed poll_id msg_id =>
      (add_mod now chat args valid installed poll_id msg_id s).2
  end.

Fixpoint run_updates (Q : Z) (us : list update) (s : state) : state :=
  match us with
  | [] => s
  | u :: us' => run_updates Q us' (apply_update Q u s)
  end.

Lemma receive_poll_answer_effect (Q now : Z) (ans : poll_answer) (s : state) :
  vote_refused Q now ans s ∨ vote_counted Q now ans s.
Proof.
  unfold vote_refused, vote_counted. destruct ans as [p u opts]. step_monad.
  destruct (bot_data s !! p) as [info|] eqn:Hinfo; simpl; [|left; eauto].
  destruct (answer_string_loop _ _ _ _) as [a|] eqn:Ha; simpl; [|left; eauto].
  destruct (polls s !! p) as [t|] eqn:Ht; simpl; [|left; eauto].
  destruct (t !! a) as [c|] eqn:Hc; simpl; [|left; eauto].
  right. exists info.
  destruct (decide (answers info + 1 = Q)) as [HQ|HQ]; simpl.
  { exists (shortened now info), a, t, c. rewrite insert_insert_eq. done. }
  exists (counted info), a, t, c.
  destruct (decide (answers info + 1 = 5)) as [H5|H5]; simpl; [|done].
  rewrite lookup_insert_eq. simpl.
  destruct (<[a:=c + 1]> t !! "Setuju") as [na|]; simpl; [|done].
  destruct (<[a:=c + 1]> t !! "Tidak Setuju") as [nd|]; simpl; [|done].
  case_decide; simpl; done.
Qed.

Lemma stop_poll_by_time_frame (now : Z) (data : string) (s : state) :
  bot_data (stop_poll_by_time now data s).2 = bot_data s
  ∧ polls (stop_poll_by_time now data s).2 = polls s
  ∧ job_queue (stop_poll_by_time now data s).2 = job_queue s.
Proof.
  step_monad. destruct (bot_data s !! data) as [info|]; simpl; [|done].
  case_decide; simpl; [|done].
  destruct (polls s !! data) as [t|]; simpl; [|done].
  destruct (t !! "Setuju") as [na|]; simpl; [|done].
  destruct (t !! "Tidak Setuju") as [nd|]; simpl; [|done].
  case_decide; simpl; done.
Qed.

Lemma tally_map_lookup (a d : Z) (label : string) (c : Z) :
  tally_map a d !! label = Some c →
  (label = "Setuju" ∧ c = a ∧ <[label := c + 1]> (tally_map a d) = tally_map (a + 1) d)
  ∨ (label = "Tidak Setuju" ∧ c = d
     ∧ <[label := c + 1]> (tally_map a d) = tally_map a (d + 1)).
Proof.
  unfold tally_map. intros H.
  destruct (decide (label = "Tidak Setuju")) as [->|Hne].
  - rewrite lookup_insert_eq in H. injection H as <-. right.
    by rewrite insert_insert_eq.
  - rewrite lookup_insert_ne in H by done.
    destruct (decide (label = "Setuju")) as [->|Hne'].
    + rewrite lookup_insert_eq in H. injection H as <-. left.
      split; [done|]. split; [done|].
      rewrite insert_insert_ne by done. by rewrite insert_insert_eq.
    + by rewrite lookup_insert_ne in H.
Qed.

Lemma handle_keeps_tallied (Q now : Z) (ev : event) (s : state) (p : string) :
  tallied s p → tallied (handle Q now ev s).2 p.
Proof.
  intros (info & a & d & Hinfo & Hq & Ht & Hsum). unfold tallied.
  destruct ev as [ans|data]; cbn [handle].
  - destruct (receive_poll_answer_effect Q now ans s)
      as [[_ ->]|(info0 & info' & l & t & c & Hi0 & _ & Ht0 & Hc & Hp & Hb & Hq' & Hans)].
    { by exists info, a, d. }
    rewrite Hp, Hb. destruct (decide (poll_id ans = p)) as [<-|Hne].
    + rewrite Hinfo in Hi0. injection Hi0 as <-. rewrite Ht in Ht0. injection Ht0 as <-.
      destruct (tally_map_lookup a d l c Hc) as [(-> & -> & ->)|(-> & -> & ->)].
      * exists info', (a + 1), d. rewrite !lookup_insert_eq.
        split; [done|]. split; [congruence|]. split; [done|lia].
      * exists info', a, (d + 1). rewrite !lookup_insert_eq.
        split; [done|]. split; [congruence|]. split; [done|lia].
    + exists info, a, d. by rewrite !lookup_insert_ne.
  - destruct (stop_poll_by_time_frame now data s) as (-> & -> & _).
    by exists info, a, d.
Qed.

Lemma add_mod_tallied (now chat msg : Z) (args p : string) (s : state) :
  tallied (add_mod now chat args true false p msg s).2 p
  ∧ ∀ q, q ≠ p → tallied s q → tallied (add_mod now chat args true false p msg s).2 q.
Proof.
  split.
  - eexists _, 0, 0. simpl. rewrite !lookup_insert_eq. done.
  - intros q Hne (info & a & d & Hinfo & Hq & Ht & Hsum). exists info, a, d.
    simpl. by rewrite !lookup_insert_ne.
Qed.


Lemma append_assoc (a b c : string) : (a +:+ b) +:+ c = a +:+ (b +:+ c).
Proof.
  induction a as [|x a IH]; [done|].
  change (String x ((a +:+ b) +:+ c) = String x (a +:+ b +:+ c)). by rewrite IH.
Qed.

Lemma append_empty_r (a : string) : a +:+ "" = a.
Proof.
  induction a as [|x a IH]; [done|].
  change (String x (a +:+ "") = String x a). by rewrite IH.
Qed.

Lemma length_append (a b : string) :
  String.length (a +:+ b) = (String.length a + String.length b)%nat.
Proof.
  induction a as [|x a IH]; [done|].
  change (S (String.length (a +:+ b)) = S (String.length a + String.length b)).
  by rewrite IH.
Qed.

Lemma answer_string_loop_cons (questions : list string) (last i : nat)
    (rest : list nat) (acc : string) :
  answer_string_loop questions last (i :: rest) acc
  = (q ← expect IndexError (questions !! i) ;
     answer_string_loop questions last rest
       (if decide (i ≠ last) then acc +:+ q +:+ " dan " else acc +:+ q)).
Proof. done. Qed.

(** The joined label starts with what was joined so far and grows by at
    least one label for every option left. *)
Lemma answer_string_loop_grows (last : nat) (selected : list nat) :
  ∀ answer_string a,
    answer_string_loop ["Setuju"; "Tidak Setuju"] last selected answer_string = Ok a →
    ∃ suffix, a = answer_string +:+ suffix
              ∧ (6 * length selected ≤ String.length suffix)%nat.
Proof.
  induction selected as [|i selected IH]; intros acc a;
    [|rewrite answer_string_loop_cons].
  - intros [= <-]. exists "". split; [|done]. by rewrite append_empty_r.
  - destruct (["Setuju"; "Tidak Setuju"] !! i) as [q|] eqn:Hq; [|done]. cbn.
    assert (6 ≤ String.length q)%nat as Hlen.
    { destruct i as [|[|i]]; simpl in Hq; [| |done]; injection Hq as <-; cbn; lia. }
    intros (suffix & -> & Hsuf)%IH. case_decide.
    + exists (q +:+ " dan " +:+ suffix). rewrite !append_assoc. split; [done|].
      rewrite !length_append. cbn [length]. lia.
    + exists (q +:+ suffix). rewrite append_assoc. split; [done|].
      rewrite length_append. cbn [length]. lia.
Qed.

Lemma single_option_labels (selected : list nat) (a : string) :
  answer_string_loop ["Setuju"; "Tidak Setuju"] (List.last selected 0%nat) selected ""
  = Ok a →
  a = "Setuju" ∨ a = "Tidak Setuju" →
  selected = [0%nat] ∨ selected = [1%nat].
Proof.
  destruct selected as [|i [|j rest]].
  - intros [= <-] [?|?]; done.
  - destruct i as [|[|i]]; [by left|by right|done].
  - intros Hrun Ha. exfalso. revert Hrun. rewrite answer_string_loop_cons.
    destruct (["Setuju"; "Tidak Setuju"] !! i) as [q|] eqn:Hq; [|done]. cbn [expect mbind result_bind].
    set (acc := if decide _ then _ else _).
    intros (suffix & -> & Hsuf)%answer_string_loop_grows. cbn [length] in Hsuf.
    assert (∃ more, acc +:+ suffix = q +:+ more ∧ (1 ≤ String.length more)%nat)
      as (more & Heq & Hmore).
    { unfold acc. case_decide.
      - exists (" dan " +:+ suffix). split; [apply (append_assoc q " dan " suffix)|].
        rewrite length_append. cbn. lia.
      - exists suffix. split; [reflexivity|lia]. }
    rewrite Heq in Ha. clear Heq.
    destruct more as [|x more]; [cbn in Hmore; lia|].
    destruct i as [|[|i]]; simpl in Hq; [| |done]; injection Hq as <-;
      destruct Ha as [Ha|Ha]; cbv in Ha; discriminate Ha.
Qed.


Lemma tally_map_keys (a d : Z) :
  tally_map a d !! "Setuju" = Some a ∧ tally_map a d !! "Tidak Setuju" = Some d.
Proof.
  unfold tally_map. split; [|by rewrite lookup_insert_eq].
  rewrite lookup_insert_ne by done. by rewrite lookup_insert_eq.
Qed.

Lemma counted_label_accepted (Q now : Z) (p : string) (u : Z) (selected : list nat)
    (label : string) (c : Z) (s : state) (info : poll_info) (a d : Z) :
  bot_data s !! p = Some info →
  polls s !! p = Some (tally_map a d) →
  answer_string_loop (questions info) (List.last selected 0%nat) selected "" = Ok label →
  tally_map a d !! label = Some c →
  (receive_poll_answer Q now (PollAnswer p u selected) s).1 = Ok ().
Proof.
  intros Hinfo Ht Hl Hc.
  assert (∃ a' d', <[label := c + 1]> (tally_map a d) = tally_map a' d')
    as (a' & d' & Hnew).
  { destruct (tally_map_lookup a d label c Hc) as [(_ & _ & ->)|(_ & _ & ->)]; eauto. }
  destruct (tally_map_keys a' d') as [Ha' Hd'].
  unfold receive_poll_answer, bind at 1, get. cbn [poll_id option_ids user].
  rewrite Hinfo. unfold bind at 1, lift at 1. cbn [expect].
  unfold bind at 1, lift at 1. rewrite Hl.
  unfold bind at 1, lift at 1. rewrite Ht. cbn [expect].
  unfold bind at 1, lift at 1. rewrite Hc. cbn [expect].
  step_monad. case_decide; simpl; [done|]. case_decide; simpl; [|done].
  rewrite lookup_insert_eq. simpl. rewrite Hnew, Ha'. simpl. rewrite Hd'. simpl.
  by case_decide.
Qed.

Lemma single_option_accepted (Q now : Z) (p : string) (u : Z) (i : nat) (s : state) :
  tallied s p → (i = 0 ∨ i = 1)%nat →
  (receive_poll_answer Q now (PollAnswer p u [i]) s).1 = Ok ().
Proof.
  intros (info & a & d & Hinfo & Hq & Ht & Hsum) Hi.
  destruct (tally_map_keys a d) as [Ha Hd].
  destruct Hi as [-> | ->].
  - apply (counted_label_accepted Q now p u [0%nat] "Setuju" a s info a d); try done.
    by rewrite Hq.
  - apply (counted_label_accepted Q now p u [1%nat] "Tidak Setuju" d s info a d);
      try done.
    by rewrite Hq.
Qed.

Lemma vote_accepted_iff (Q now : Z) (ans : poll_answer) (s : state) :
  tallied s (poll_id ans) →
  ((receive_poll_answer Q now ans s).1 = Ok ()
   ↔ option_ids ans = [0%nat] ∨ option_ids ans = [1%nat])
  ∧ ((receive_poll_answer Q now ans s).1 ≠ Ok () → (receive_poll_answer Q now ans s).2 = s).
Proof.
  intros Htal.
  assert (vote_counted Q now ans s →
          option_ids ans = [0%nat] ∨ option_ids ans = [1%nat]) as Hsingle.
  { destruct Htal as (info & a & d & Hinfo & Hq & Ht & Hsum).
    intros (info0 & info' & l & t & c & Hi0 & Hl & Ht0 & Hc & _).
    rewrite Hinfo in Hi0. injection Hi0 as <-. rewrite Ht in Ht0. injection Ht0 as <-.
    rewrite Hq in Hl. apply (single_option_labels _ l Hl).
    destruct (tally_map_lookup a d l c Hc) as [(-> & _)|(-> & _)]; [by left|by right]. }
  assert (option_ids ans = [0%nat] ∨ option_ids ans = [1%nat] →
          (receive_poll_answer Q now ans s).1 = Ok ()) as Hok.
  { destruct ans as [p u opts]. simpl in *.
    intros [-> | ->]; apply single_option_accepted; auto. }
  split; [split; [|done]|].
  - intros Hrun. destruct (receive_poll_answer_effect Q now ans s) as [[[e He] _]|Hc];
      [congruence|by apply Hsingle].
  - intros Hfail. destruct (receive_poll_answer_effect Q now ans s) as [[_ Hsame]|Hc];
      [done|]. destruct Hfail. by apply Hok, Hsingle.
Qed.

Lemma handle_keeps_polls (Q now : Z) (ev : event) (s : state) :
  dom (bot_data s) ⊆ dom (bot_data (handle Q now ev s).2)
  ∧ dom (polls s) ⊆ dom (polls (handle Q now ev s).2).
Proof.
  destruct ev as [ans|data]; cbn [handle].
  - destruct (receive_poll_answer_effect Q now ans s)
      as [[_ ->]|(info & info' & l & t & c & _ & _ & _ & _ & -> & -> & _)]; [done|].
    rewrite !dom_insert_L. split; apply union_subseteq_r.
  - by destruct (stop_poll_by_time_frame now data s) as (-> & -> & _).
Qed.

Lemma add_mod_keeps_tallied (now chat msg : Z) (args q : string) (valid installed : bool)
    (s : state) (p : string) :
  tallied s p → tallied (add_mod now chat args valid installed q msg s).2 p.
Proof.
  intros Htal. destruct valid; [destruct installed|]; [done| |done].
  destruct (add_mod_tallied now chat msg args q s) as [Hnew Hold].
  destruct (decide (p = q)) as [->|Hne]; [exact Hnew|by apply Hold].
Qed.




(** X24: no handler forgets a poll: after a vote or a deadline job was
    handled, whatever its result, every poll id of [bot_data] and of
    [polls] is still there. *)
Theorem X24_handlers_never_delete_polls (Q now : Z) (ev : event) (s : state) :
  dom (bot_data s) ⊆ dom (bot_data (handle Q now ev s).2)
  ∧ dom (polls s) ⊆ dom (polls (handle Q now ev s).2).
Proof. apply handle_keeps_polls. Qed.

End PollFacts.

(** * Properties of the rate limiter *)

Module RateLimitFacts.

Import RateLimit.
Open Scope Z_scope.

Section Bounds.

Variable rate_limit_duration : Z.
Variable max_calls : Z.
Variable independent_call_limit : option Z.

(** The window starting at [t0]. *)
Variable t0 : Z.

Definition in_window (c : call) : Prop :=
  t0 ≤ at_time c ≤ t0 + rate_limit_duration.

(** No record is older than the window. *)
Definition recent (data : limiter) : Prop :=
  (∀ u count timestamp, users data !! u = Some (count, timestamp) → t0 ≤ timestamp)
  ∧ (∀ count timestamp from_user,
       independent_call data = Some (count, timestamp, from_user) → t0 ≤ timestamp).

(** The calls a user has left in the window. *)
Definition calls_left (user_id : Z) (data : limiter) : Z :=
  match users data !! user_id with
  | Some (count, _) => Z.max 0 (max_calls - count)
  | None => Z.max 1 max_calls
  end.

(** The calls left in the window, all users together. *)
Definition all_calls_left (limit : Z) (data : limiter) : Z :=
  match independent_call data with
  | Some (count, _, _) => Z.max 0 (limit - count)
  | None => Z.max 1 limit
  end.

Abbreviation run := (wrapper rate_limit_duration max_calls independent_call_limit).

(** One call in the window: no record becomes older than the window, and
    a call that runs the handler uses up one of the calls left. *)
Lemma wrapper_in_window (c : call) (data : limiter) (user_id : Z) :
  in_window c → recent data →
  recent (run (at_time c) (by_user c) (by_name c) data).2
  ∧ (if ran (run (at_time c) (by_user c) (by_name c) data).1
     then
       (by_user c = user_id →
        calls_left user_id (run (at_time c) (by_user c) (by_name c) data).2 + 1
        ≤ calls_left user_id data)
       ∧ (by_user c ≠ user_id →
          calls_left user_id (run (at_time c) (by_user c) (by_name c) data).2
          = calls_left user_id data)
       ∧ (∀ limit, independent_call_limit = Some limit →
            all_calls_left limit (run (at_time c) (by_user c) (by_name c) data).2 + 1
            ≤ all_calls_left limit data)
     else
       calls_left user_id (run (at_time c) (by_user c) (by_name c) data).2
       = calls_left user_id data
       ∧ (∀ limit,
            all_calls_left limit (run (at_time c) (by_user c) (by_name c) data).2
            = all_calls_left limit data)).
Proof.
  destruct c as [now uid uname]. unfold in_window. simpl. intros [Hlo Hhi] Hrecent.
  pose proof Hrecent as [Husers Hind].
  destruct (run now uid uname data) as [r data'] eqn:Hrun. simpl. revert Hrun.
  unfold wrapper, bind, check_independent, check_user, record_call, ret.
  assert (∀ users' ic', 
            (∀ u c t, users' !! u = Some (c, t) → u ≠ uid → users data !! u = Some (c, t)) →
            (∀ c t, users' !! uid = Some (c, t) → t0 ≤ t) →
            (∀ c t f, ic' = Some (c, t, f) → t0 ≤ t) →
            recent (Limiter users' ic')) as Hrecent'.
  { intros users' ic' Hother Hself Hic'. split; [|done]. simpl. intros u c t Hu.
    destruct (decide (u = uid)) as [->|Hne]; [by eapply Hself|]. eapply Husers. eauto. }
  destruct (independent_call data) as [[[ci ti] fi]|] eqn:Hic.
  - pose proof (Hind _ _ _ eq_refl) as Hti.
    rewrite decide_False by lia.
    destruct independent_call_limit as [limit|] eqn:Hlimit; [|by intros [= <- <-]].
    destruct (decide (ci >= limit)) as [Hfull|Hroom]; [by intros [= <- <-]|].
    destruct (users data !! uid) as [[cu tu]|] eqn:Hu.
    + pose proof (Husers _ _ _ Hu) as Htu. rewrite decide_False by lia.
      destruct (decide (cu >= max_calls)) as [Hufull|Huroom]; [by intros [= <- <-]|].
      simpl. rewrite Hu, Hic. intros [= <- <-]. simpl. split.
      * apply Hrecent'.
        -- intros u c t Hu' Hne. by rewrite lookup_insert_ne in Hu'.
        -- intros c t. rewrite lookup_insert_eq. by intros [= <- <-].
        -- by intros c t f [= <- <- <-].
      * unfold calls_left, all_calls_left. simpl. split; [|split].
        -- intros <-. rewrite lookup_insert_eq, Hu. lia.
        -- intros Hne. by rewrite lookup_insert_ne.
        -- intros l [= <-]. rewrite Hic. lia.
    + simpl. rewrite Hu, Hic. intros [= <- <-]. simpl. split.
      * apply Hrecent'.
        -- intros u c t Hu' Hne. by rewrite lookup_insert_ne in Hu'.
        -- intros c t. rewrite lookup_insert_eq. by intros [= <- <-].
        -- by intros c t f [= <- <- <-].
      * unfold calls_left, all_calls_left. simpl. split; [|split].
        -- intros <-. rewrite lookup_insert_eq, Hu. lia.
        -- intros Hne. by rewrite lookup_insert_ne.
        -- intros l [= <-]. rewrite Hic. lia.
  - destruct (users data !! uid) as [[cu tu]|] eqn:Hu.
    + pose proof (Husers _ _ _ Hu) as Htu. rewrite decide_False by lia.
      destruct (decide (cu >= max_calls)) as [Hufull|Huroom]; [by intros [= <- <-]|].
      simpl. rewrite Hu, Hic. intros [= <- <-]. simpl. split.
      * apply Hrecent'.
        -- intros u c t Hu' Hne. by rewrite lookup_insert_ne in Hu'.
        -- intros c t. rewrite lookup_insert_eq. by intros [= <- <-].
        -- destruct independent_call_limit; [|done]. by intros c t f [= <- <- <-].
      * unfold calls_left, all_calls_left. simpl. split; [|split].
        -- intros <-. rewrite lookup_insert_eq, Hu. lia.
        -- intros Hne. by rewrite lookup_insert_ne.
        -- intros l ->. rewrite Hic. simpl. lia.
    + simpl. rewrite Hu, Hic. intros [= <- <-]. simpl. split.
      * apply Hrecent'.
        -- intros u c t Hu' Hne. by rewrite lookup_insert_ne in Hu'.
        -- intros c t. rewrite lookup_insert_eq. by intros [= <- <-].
        -- destruct independent_call_limit; [|done]. by intros c t f [= <- <- <-].
      * unfold calls_left, all_calls_left. simpl. split; [|split].
        -- intros <-. rewrite lookup_insert_eq, Hu. lia.
        -- intros Hne. by rewrite lookup_insert_ne.
        -- intros l ->. rewrite Hic. simpl. lia.
Qed.

Lemma executions_le_calls_left (user_id : Z) (calls : list call) (data : limiter) :
  Forall in_window calls → recent data →
  Z.of_nat (executions rate_limit_duration max_calls independent_call_limit
              user_id calls data)
  ≤ calls_left user_id data.
Proof.
  intros Hcalls. revert data.
  induction Hcalls as [|c calls Hc _ IH]; intros data Hrecent.
  { simpl. unfold calls_left. repeat case_match; lia. }
  cbn [executions].
  pose proof (wrapper_in_window c data user_id Hc Hrecent) as [Hrecent' Hstep].
  destruct (run (at_time c) (by_user c) (by_name c) data) as [r data'].
  simpl in Hrecent', Hstep. specialize (IH data' Hrecent').
  destruct (ran r); simpl.
  - destruct Hstep as (Hself & Hother & _).
    case_bool_decide as Hu.
    + specialize (Hself Hu). lia.
    + specialize (Hother Hu). lia.
  - destruct Hstep as [Hsame _]. lia.
Qed.

Lemma all_executions_le_calls_left (limit : Z) (calls : list call) (data : limiter) :
  independent_call_limit = Some limit →
  Forall in_window calls → recent data →
  Z.of_nat (all_executions rate_limit_duration max_calls independent_call_limit
              calls data)
  ≤ all_calls_left limit data.
Proof.
  intros Hlimit Hcalls. revert data.
  induction Hcalls as [|c calls Hc _ IH]; intros data Hrecent.
  { simpl. unfold all_calls_left. repeat case_match; lia. }
  cbn [all_executions].
  pose proof (wrapper_in_window c data 0 Hc Hrecent) as [Hrecent' Hstep].
  destruct (run (at_time c) (by_user c) (by_name c) data) as [r data'].
  simpl in Hrecent', Hstep. specialize (IH data' Hrecent').
  destruct (ran r); simpl.
  - destruct Hstep as (_ & _ & Hall). specialize (Hall limit Hlimit). lia.
  - destruct Hstep as [_ Hsame]. specialize (Hsame limit). lia.
Qed.

Lemma recent_empty : recent (Limiter ∅ None).
Proof. split; [|done]. simpl. intros u c t. by rewrite lookup_empty. Qed.

End Bounds.

(** The waiting time a refusal announces. *)
Definition announced_wait (r : result outcome) : option Z :=
  match r with
  | Ok (RefusedIndependent _ remaining_time) | Ok (RefusedUser remaining_time) =>
      Some remaining_time
  | _ => None
  end.

(** Five calls of user 1 and one of user 2 within 100 seconds. *)
Definition burst : list call :=
  [Call 0 1 "ann"; Call 10 1 "ann"; Call 20 2 "bob"; Call 30 1 "ann";
   Call 40 1 "ann"; Call 100 1 "ann"].








End RateLimitFacts.
